(** * trajclus/apps/lsh_clustering.py: a shallow embedding and its properties

    The module clusters approach trajectories: it detects entrance corridors,
    turns every trajectory into a sequence of corridor labels, groups the
    label sets with MinHash + LSH, reduces the candidate sets to buckets and
    buckets to integer cluster ids, and scores the result with a silhouette.

    Floating-point numbers are read as exact rationals ([Q]); Python
    exceptions are the [Raise] results of a small error monad. *)

From Stdlib Require Import QArith Qminmax Qabs Lqa.
From stdpp Require Import gmap strings list fin_maps sorting pretty.

Local Open Scope Z_scope.
Set Warnings "-clear-no-such-hyp".

(** ** Exceptions and the error monad *)

Inductive exn : Type :=
  | KeyError
  | ValueError
  | IndexError
  | AttributeError.

Inductive result (A : Type) : Type :=
  | Ok (a : A)
  | Raise (e : exn).
Arguments Ok {A} a.
Arguments Raise {A} e.

#[global] Instance result_ret : MRet result := λ A a, Ok a.
#[global] Instance result_bind : MBind result := λ A B f m,
  match m with
  | Ok a => f a
  | Raise e => Raise e
  end.
#[global] Instance result_fmap : FMap result := λ A B f m,
  match m with
  | Ok a => Ok (f a)
  | Raise e => Raise e
  end.

Definition raises {A} (m : result A) : bool :=
  match m with
  | Ok _ => false
  | Raise _ => true
  end.

(** ** Points and the external collaborators *)

(** A point is a (latitude, longitude) pair; an n x 2 array is a list. *)
Definition Point : Type := Q * Q.

(** What the module imports from elsewhere: the numeric cores of
    scikit-learn, geopy and numpy, and helpers of [trajclus.lib].

    - [RandomState], [seed_rng]: numpy's generator and
      [np.random.RandomState(seed)];
    - [randint rng n], [random_sample rng]: a draw of
      [random_state.randint(n)] and of [random_state.random_sample()],
      each with the state the generator is left in;
    - [log_floor n]: [int(np.log(n))];
    - [dbscan_fit eps min_samples X]: the labels of a ball-tree haversine
      DBSCAN, one per sample ([dbscan_fit_length]), or the exception its
      parameter validation raises;
    - [radians], [great_circle_m]: [np.radians] on a coordinate and
      [great_circle(p, q).m];
    - [KM_PER_RADIAN]: the constant of [trajclus.lib.geometric_utils];
    - [build_matrix_distances]: the pairwise directed-Hausdorff matrix of
      [trajclus.lib.geometric_utils];
    - [permutation], [empty_hash], [band_split]: the hash family behind
      the MinHash signatures, the value a signature holds for an empty
      token set, and the (bands, rows) split chosen for a threshold and a
      signature length. *)
Class Externals : Type := {
  RandomState : Type;
  seed_rng : Z → RandomState;
  randint : RandomState → nat → nat * RandomState;
  random_sample : RandomState → Q * RandomState;
  log_floor : nat → nat;
  dbscan_fit : Q → nat → list Point → result (list Z);
  dbscan_fit_length : ∀ eps min_samples X labels,
    dbscan_fit eps min_samples X = Ok labels → length labels = length X;
  radians : Q → Q;
  great_circle_m : Point → Point → Q;
  KM_PER_RADIAN : Q;
  build_matrix_distances : list (list Point) → list (list Q);
  permutation : nat → string → Z;
  empty_hash : Z;
  band_split : Q → nat → nat * nat;
}.

(** ** Arrays *)

Definition Qsum (l : list Q) : Q := foldr Qplus 0%Q l.

Definition Qcount (n : nat) : Q := inject_Z (Z.of_nat n).

(** [coords[cluster_labels == n]]: the rows whose label is [n]. *)
Definition rows_labelled (coords : list Point) (labels : list Z) (n : Z)
    : list Point :=
  fst <$> filter (λ pl, pl.2 = n) (zip coords labels).

Definition sq_euclidean (p q : Point) : Q :=
  ((p.1 - q.1) * (p.1 - q.1) + (p.2 - q.2) * (p.2 - q.2))%Q.

(** Position of the first smallest element, counting from [i]. *)
Fixpoint argmin_from (i : nat) (ds : list Q) : option (nat * Q) :=
  match ds with
  | [] => None
  | d :: ds' =>
      match argmin_from (S i) ds' with
      | Some (j, d') => if Qle_bool d d' then Some (i, d) else Some (j, d')
      | None => Some (i, d)
      end
  end.

(** The id of the centre nearest to [p]. *)
Definition closest (centers : list Point) (p : Point) : Z :=
  match argmin_from 0 ((λ c, sq_euclidean p c) <$> centers) with
  | Some (j, _) => Z.of_nat j
  | None => 0
  end.

(** [np.mean] of a vector, and of the rows of an n x 2 array; the mean of
    nothing is read as 0. *)
Definition Qmean (l : list Q) : Q := Qred (Qsum l / Qcount (length l)).

Definition mean_point (X : list Point) : Point :=
  (Qmean (fst <$> X), Qmean (snd <$> X)).

(** [np.var] of a vector. *)
Definition variance (l : list Q) : Q :=
  let m := Qmean l in
  Qmean ((λ x, (x - m) * (x - m))%Q <$> l).

(** [X[i]], for an index clipped to the rows of [X]. *)
Definition sample_at (X : list Point) (i : nat) : Point :=
  default (0, 0)%Q (X !! (i `min` (length X - 1))%nat).

(** The squared distance of a sample to the centre nearest to it. *)
Definition dist_to_closest (centers : list Point) (x : Point) : Q :=
  Qred (sq_euclidean x (sample_at centers (Z.to_nat (closest centers x)))).

(** The squared distance of every row of [X] to [p]. *)
Definition dists_to (X : list Point) (p : Point) : list Q :=
  (λ x, Qred (sq_euclidean x p)) <$> X.

(** [np.cumsum], continued from [acc]. *)
Fixpoint cumsum_from (acc : Q) (l : list Q) : list Q :=
  match l with
  | [] => []
  | x :: l' => Qred (acc + x) :: cumsum_from (Qred (acc + x)) l'
  end.

(** [np.searchsorted(a, v)] on an increasing [a]: the number of entries
    below [v]. *)
Definition searchsorted (a : list Q) (v : Q) : nat :=
  length (filter (λ x, Qle_bool v x = false) a).

(** [a] comes before [b] in [argsort(distances)[::-1]]. *)
Definition farther (a b : nat * Q) : Prop := Qle_bool b.2 a.2 = true.

#[global] Instance farther_dec : RelDecision farther.
Proof. intros a b. unfold farther. apply _. Defined.

(** ** scikit-learn's k-means

    [KMeans.fit] with the defaults of the estimator, [init='k-means++'],
    [n_init=10], [max_iter=300] and [tol=1e-4]: [n_init] runs, each seeded
    by k-means++ and improved by Lloyd's iterations until the labels
    repeat, the centres move by no more than the tolerance, or [max_iter]
    iterations are done; the centres of the first run of least inertia
    are kept. *)

Section k_means.
Context `{E : Externals}.

Definition n_init : nat := 10.
Definition max_iter : nat := 300.
Definition tol : Q := 0.0001.

(** [random_state.uniform(size=size)]. *)
Fixpoint uniform (size : nat) (rng : RandomState) : list Q * RandomState :=
  match size with
  | O => ([], rng)
  | S size' =>
      let '(u, rng) := random_sample rng in
      let '(us, rng) := uniform size' rng in
      (u :: us, rng)
  end.

(** One more centre of the k-means++ seeding: [n_local_trials] samples
    are drawn with probability proportional to their squared distance
    to the nearest centre chosen so far, and the one that leaves the
    smallest potential becomes a centre. The state is the centres
    chosen, the squared distance of every sample to the nearest of
    them, and the generator. *)
Definition kmeans_plusplus_next (X : list Point) (n_local_trials : nat)
    (state : list Point * list Q * RandomState)
    : list Point * list Q * RandomState :=
  let '(centers, closest_dist_sq, rng) := state in
  let current_pot := Qsum closest_dist_sq in
  let '(rand_vals, rng) := uniform n_local_trials rng in
  let candidate_ids :=
    (λ u, searchsorted (cumsum_from 0 closest_dist_sq) (u * current_pot)%Q)
      <$> rand_vals in
  let distance_to_candidates :=
    (λ id, zip_with Qmin closest_dist_sq (dists_to X (sample_at X id)))
      <$> candidate_ids in
  let candidates_pot := Qsum <$> distance_to_candidates in
  let best_candidate :=
    match argmin_from 0 candidates_pot with
    | Some (j, _) => j
    | None => 0%nat
    end in
  (centers ++ [sample_at X (default 0%nat (candidate_ids !! best_candidate))],
   default closest_dist_sq (distance_to_candidates !! best_candidate),
   rng).

(** The k-means++ seeding: a first centre drawn uniformly, and
    [n_clusters - 1] more. *)
Definition kmeans_plusplus (X : list Point) (n_clusters : nat)
    (rng : RandomState) : list Point * RandomState :=
  let n_local_trials := (2 + log_floor n_clusters)%nat in
  let '(center_id, rng) := randint rng (length X) in
  let first := sample_at X center_id in
  let '(centers, _, rng) :=
    Nat.iter (n_clusters - 1) (kmeans_plusplus_next X n_local_trials)
             ([first], dists_to X first, rng) in
  (centers, rng).

(** The clusters without a member take, in turn, the samples farthest
    from their centres. *)
Definition relocate_empty_clusters (n_clusters : nat) (labels : list Z)
    (distances : list Q) : list Z :=
  let empty_clusters :=
    filter (λ j, Z.of_nat j ∉ labels) (seq 0 n_clusters) in
  let far_from_centers :=
    fst <$> merge_sort farther (zip (seq 0 (length labels)) distances) in
  foldl (λ labels move, <[move.1 := Z.of_nat move.2]> labels)
        labels (zip far_from_centers empty_clusters).

(** One iteration of Lloyd's algorithm: the label of every sample under
    [centers], and the centres moved to the means of their members. A
    cluster that relocation has left without a member is put at the mean
    of the data. *)
Definition lloyd_iter (X : list Point) (centers : list Point)
    : list Z * list Point :=
  let labels := closest centers <$> X in
  let distances := dist_to_closest centers <$> X in
  let members := relocate_empty_clusters (length centers) labels distances in
  (labels,
   (λ j, match rows_labelled X members (Z.of_nat j) with
         | [] => mean_point X
         | cluster => mean_point cluster
         end) <$> seq 0 (length centers)).

(** The total squared movement of the centres. *)
Definition center_shift_tot (centers centers_new : list Point) : Q :=
  Qsum (zip_with sq_euclidean centers centers_new).

(** Lloyd's iterations, at most [n_iter] of them. *)
Fixpoint lloyd (n_iter : nat) (X : list Point) (tol : Q)
    (labels_old : list Z) (centers : list Point) : list Point :=
  match n_iter with
  | O => centers
  | S n_iter' =>
      let '(labels, centers_new) := lloyd_iter X centers in
      if bool_decide (labels = labels_old) then centers_new
      else if Qle_bool (center_shift_tot centers centers_new) tol
      then centers_new
      else lloyd n_iter' X tol labels centers_new
  end.

(** The tolerance is relative to the variance of the data. *)
Definition tolerance (X : list Point) : Q :=
  ((variance (fst <$> X) + variance (snd <$> X)) / 2 * tol)%Q.

(** The sum of the squared distances of the samples to their nearest
    centre. *)
Definition inertia (X : list Point) (centers : list Point) : Q :=
  Qsum (dist_to_closest centers <$> X).

(** One run: its inertia, its centres, and the generator after it. *)
Definition kmeans_single (X : list Point) (n_clusters : nat)
    (rng : RandomState) : Q * list Point * RandomState :=
  let '(centers_init, rng) := kmeans_plusplus X n_clusters rng in
  let centers :=
    lloyd max_iter X (tolerance X) ((λ _, -1) <$> X) centers_init in
  (inertia X centers, centers, rng).

(** [n] further runs; a run replaces the best one so far when its
    inertia is strictly smaller. *)
Fixpoint kmeans_runs (n : nat) (X : list Point) (n_clusters : nat)
    (best : Q * list Point) (rng : RandomState)
    : list Point * RandomState :=
  match n with
  | O => (best.2, rng)
  | S n' =>
      let '(inertia, centers, rng) := kmeans_single X n_clusters rng in
      let best :=
        if Qle_bool best.1 inertia then best else (inertia, centers) in
      kmeans_runs n' X n_clusters best rng
  end.

(** The centres of the fit, and the generator after it. *)
Definition k_means (X : list Point) (n_clusters : nat) (rng : RandomState)
    : list Point * RandomState :=
  let '(inertia, centers, rng) := kmeans_single X n_clusters rng in
  kmeans_runs (n_init - 1) X n_clusters (inertia, centers) rng.

Definition kmeans_centers (rng : RandomState) (n_clusters : nat)
    (X : list Point) : list Point :=
  (k_means X n_clusters rng).1.

End k_means.

(** ** Corridor detection (lines 22-95) *)

Section corridor_detector.
Context `{E : Externals}.

(** The generator numpy hands out when no seed is given: the state of the
    process-wide generator at the time of the call. *)
Variable ambient : RandomState.

(** *** scikit-learn's estimators *)

Record KMeans : Type := {
  n_clusters : nat;
  random_state : option Z;
  cluster_centers_ : list Point;
}.

(** [KMeans(n_clusters, random_state).fit(X)]: the fit is refused with a
    [ValueError] when there are fewer samples than clusters. *)
Definition KMeans_fit (n_clusters : nat) (random_state : option Z)
    (X : list Point) : result KMeans :=
  if (n_clusters =? 0)%nat || (length X <? n_clusters)%nat
  then Raise ValueError
  else
    let rng := match random_state with
               | Some seed => seed_rng seed
               | None => ambient
               end in
    Ok {| n_clusters := n_clusters;
          random_state := random_state;
          cluster_centers_ := kmeans_centers rng n_clusters X |}.

(** [KMeans.predict(X)]: one centre id per row of [X]. *)
Definition KMeans_predict (kmeans : KMeans) (X : list Point) : list Z :=
  closest (cluster_centers_ kmeans) <$> X.

Record DBSCAN : Type := {
  eps : Q;
  min_samples : nat;
  labels_ : list Z;
}.

(** [DBSCAN(eps, min_samples, algorithm='ball_tree',
    metric='haversine').fit(X)]. *)
Definition DBSCAN_fit (eps : Q) (min_samples : nat) (X : list Point)
    : result DBSCAN :=
  labels ← dbscan_fit eps min_samples X;
  Ok {| eps := eps; min_samples := min_samples; labels_ := labels |}.

(** *** The module's functions *)

(** First element of [cluster] whose key is smallest, as Python's [min]. *)
Fixpoint min_by (key : Point → Q) (cluster : list Point) : option Point :=
  match cluster with
  | [] => None
  | p :: cluster' =>
      match min_by key cluster' with
      | Some q => if Qle_bool (key p) (key q) then Some p else Some q
      | None => Some p
      end
  end.

(** The centroid of a [MultiPoint] is the mean of its coordinates; an
    empty cluster has no centroid and no minimum. *)
Definition get_centermost_point (cluster : list Point) : result Point :=
  let n := inject_Z (Z.of_nat (length cluster)) in
  let centroid := ((Qsum (fst <$> cluster) / n)%Q,
                   (Qsum (snd <$> cluster) / n)%Q) in
  match min_by (λ point, great_circle_m point centroid) cluster with
  | Some centermost_point => Ok centermost_point
  | None => Raise ValueError
  end.

(** Python's truth value of the [epsilon] argument: [None] and zero are
    false. *)
Definition truthy (epsilon : option Q) : bool :=
  match epsilon with
  | None => false
  | Some e => negb (Qeq_bool e 0)
  end.

(** Number of distinct labels, [len(set(cluster_labels))]. *)
Definition n_distinct (labels : list Z) : nat :=
  length (remove_dups labels).

Definition dbscan_clustering (coords : list Point) (min_sample : nat)
    (max_distance : Q) (epsilon : option Q)
    : result (list Point * DBSCAN) :=
  let epsilon :=
    if negb (truthy epsilon) then (max_distance / KM_PER_RADIAN)%Q
    else default 0%Q epsilon in
  db ← DBSCAN_fit epsilon min_sample
         ((λ p, (radians p.1, radians p.2)) <$> coords);
  let cluster_labels := labels_ db in
  let num_clusters := n_distinct cluster_labels in
  let clusters :=
    (λ n, rows_labelled coords cluster_labels (Z.of_nat n))
      <$> seq 0 num_clusters in
  centers ← mapM get_centermost_point clusters;
  Ok (centers, db).

Definition kmeans_clustering (coords : list Point) (k_cluster : nat)
    : result (list Point * KMeans) :=
  kmeans ← KMeans_fit k_cluster (Some 0) coords;
  let centers := cluster_centers_ kmeans in
  Ok (centers, kmeans).

(** The second component of what [detect_entrance_ways] returns: a fitted
    estimator, or [False]. *)
Inductive Classifier : Type :=
  | NoClassifier
  | KMeansClassifier (kmeans : KMeans)
  | DBSCANClassifier (db : DBSCAN).

(** Once the guard has let the selector through, the test for ['dbscan']
    is the negation of the test for ['k-means']. *)
Definition detect_entrance_ways (point_coords : list Point)
    (algorithm : string) : result (list Point * Classifier) :=
  if negb (bool_decide (algorithm ∈ ["k-means"; "dbscan"]))
  then Ok ([], NoClassifier)
  else if bool_decide (algorithm = "k-means") then
    let estimated_n_entrance := 9%nat in
    '(centers, kmeans) ← kmeans_clustering point_coords estimated_n_entrance;
    Ok (centers, KMeansClassifier kmeans)
  else
    '(centers, db) ← dbscan_clustering point_coords 1 30.0%Q None;
    Ok (centers, DBSCANClassifier db).

End corridor_detector.

(** ** Trajectory simplification *)

(** Modelled from the spec: the perpendicular deviation used by
    [simplify_coordinator] (section 4.2), as the squared perpendicular
    distance from [p] to the line through [a] and [b], or the squared
    distance to [a] when the two coincide. Comparing squares keeps the
    arithmetic rational. *)
Definition deviation (a b p : Point) : Q :=
  let dx := (b.1 - a.1)%Q in
  let dy := (b.2 - a.2)%Q in
  let len2 := (dx * dx + dy * dy)%Q in
  if Qeq_bool len2 0
  then ((p.1 - a.1) * (p.1 - a.1) + (p.2 - a.2) * (p.2 - a.2))%Q
  else
    let cross := (dx * (a.2 - p.2) - (a.1 - p.1) * dy)%Q in
    (cross * cross / len2)%Q.

(** Modelled from the spec: the test "exceeds epsilon" of
    [simplify_coordinator] (section 4.2), for a distance whose square is
    [d2]. *)
Definition exceeds (d2 epsilon : Q) : bool :=
  negb (Qle_bool 0 epsilon) || negb (Qle_bool d2 (epsilon * epsilon)).

(** Modelled from the spec: "the point of maximum perpendicular
    deviation" of [simplify_coordinator] (section 4.2): the first point of
    [m] with the largest deviation from the chord [a]-[b], with its
    position and its deviation. *)
Fixpoint farthest (a b : Point) (m : list Point) : option (nat * Point * Q) :=
  match m with
  | [] => None
  | p :: m' =>
      let d := deviation a b p in
      match farthest a b m' with
      | Some (i, q, d') =>
          if Qle_bool d' d then Some (0%nat, p, d) else Some (S i, q, d')
      | None => Some (0%nat, p, d)
      end
  end.

(** Modelled from the spec: the recursion of [simplify_coordinator]
    (section 4.2). The points kept strictly between the end points [a] and
    [b], where [m] holds the points that lie between them: the farthest
    one if it exceeds epsilon, and what is kept on either side of it. The
    fuel bounds the depth; the length of [m] is always enough. *)
Fixpoint kept_between (fuel : nat) (epsilon : Q) (a : Point)
    (m : list Point) (b : Point) : list Point :=
  match fuel with
  | O => []
  | S fuel' =>
      match farthest a b m with
      | Some (i, p, d) =>
          if exceeds d epsilon
          then kept_between fuel' epsilon a (take i m) p
                 ++ p :: kept_between fuel' epsilon p (drop (S i) m) b
          else []
      | None => []
      end
  end.

(** Modelled from the spec: [simplify_coordinator] of
    [trajclus.lib.geometric_utils], whose source is missing. Section 4.2:
    a Douglas-Peucker-style reduction that keeps the end points and
    recursively keeps the point of maximum perpendicular deviation if it
    exceeds epsilon. A sequence of fewer than three points has nothing
    between its end points and is returned as it is. *)
Definition simplify_coordinator (coord_curve : list Point) (epsilon : Q)
    : list Point :=
  match coord_curve with
  | a :: (_ :: _) as rest =>
      let m := removelast rest in
      let b := List.last rest a in
      a :: kept_between (length m) epsilon a m b ++ [b]
  | _ => coord_curve
  end.

(** ** Tokenization (lines 133-173 of [main]) *)

(** A row of the [entrance_to_airport] frame. *)
Record Row : Type := {
  Flight_ID : string;
  DRemains : Q;
  Latitude : Q;
  Longitude : Q;
}.

(** [r1] comes no later than [r2] when it has no less distance left. *)
Definition further (r1 r2 : Row) : Prop :=
  Qle_bool (DRemains r2) (DRemains r1) = true.

#[global] Instance further_dec : RelDecision further.
Proof. intros r1 r2. unfold further. apply _. Defined.

(** The loop of lines 133-137: per flight, its entrance rows ordered by
    decreasing distance remaining, reduced to their coordinates. Rows
    with equal distance remaining come in the order the merge sort leaves
    them in; pandas does not fix one. *)
Definition entrance_trajectories (entrance_to_airport : list Row)
    (flight_ids : list string) (max_flights : nat) : list (list Point) :=
  (λ fid,
     let tmp_df := filter (λ r, Flight_ID r = fid) entrance_to_airport in
     let tmp_df := merge_sort further tmp_df in
     (λ r, (Latitude r, Longitude r)) <$> tmp_df)
    <$> take max_flights flight_ids.

(** ["G{}".format(c)] over every list of the [groups] column. *)
Definition group_labels (groups : list (list Z)) : list (list string) :=
  (λ clusters : list Z, (λ c : Z, "G" +:+ pretty c) <$> clusters) <$> groups.

Section tokenizer.
Context `{E : Externals}.

(** [KMeans.fit_predict(X)], which is [fit(X)] followed by [predict(X)]:
    the labels, and the state the fit leaves the process-wide generator
    in. A seeded estimator draws from a generator of its own. *)
Definition KMeans_fit_predict (ambient : RandomState) (kmeans : KMeans)
    (X : list Point) : result (list Z * RandomState) :=
  fitted ← KMeans_fit ambient (n_clusters kmeans) (random_state kmeans) X;
  let ambient :=
    match random_state kmeans with
    | Some _ => ambient
    | None => (k_means X (n_clusters kmeans) ambient).2
    end in
  Ok (KMeans_predict fitted X, ambient).

(** [[classifier.fit_predict(X=coord) for coord in trajectories]] for a
    k-means estimator. *)
Fixpoint KMeans_fit_predict_each (ambient : RandomState) (kmeans : KMeans)
    (trajectories : list (list Point)) : result (list (list Z)) :=
  match trajectories with
  | [] => Ok []
  | coord :: trajectories' =>
      '(labels, ambient) ← KMeans_fit_predict ambient kmeans coord;
      others ← KMeans_fit_predict_each ambient kmeans trajectories';
      Ok (labels :: others)
  end.

(** Lines 157-167. The ['dbscan'] branch calls [fit_predict], which both
    estimators have and [False] has not; the ['k-means'] branch calls
    [predict], which only the k-means estimator has. *)
Definition entrance_groups (ambient : RandomState)
    (detect_entrance_algo : string) (classifier : Classifier)
    (entrance_trajectories : list (list Point))
    : result (list (list Z)) :=
  if bool_decide (detect_entrance_algo = "dbscan") then
    match classifier with
    | DBSCANClassifier db =>
        mapM (λ coord, labels_ <$> DBSCAN_fit (eps db) (min_samples db) coord)
             entrance_trajectories
    | KMeansClassifier kmeans =>
        KMeans_fit_predict_each ambient kmeans entrance_trajectories
    | NoClassifier =>
        mapM (λ _, Raise AttributeError) entrance_trajectories
    end
  else if bool_decide (detect_entrance_algo = "k-means") then
    mapM (λ traj,
            if (1 <? length traj)%nat then
              match classifier with
              | KMeansClassifier kmeans => Ok (KMeans_predict kmeans traj)
              | _ => Raise AttributeError
              end
            else Ok [-1])
         entrance_trajectories
  else Raise KeyError.

End tokenizer.

(** ** MinHash and LSH *)

Section min_hash_lsh.
Context `{E : Externals}.

(** Modelled from the spec: the state of [LSHClusteringLib] of
    [trajclus.lib.lsh_lib], whose source is missing. Section 3: the
    index maps a band-hash to the set of record ids sharing it; a band is
    keyed by its position and its rows. *)
Record LSHClusteringLib : Type := {
  threshold : Q;
  num_perm : nat;
  bands : nat;
  rows : nat;
  hashtables : gmap (nat * list Z) (gset string);
}.

(** Modelled from the spec: the constructor [LSHClusteringLib(threshold,
    num_perm)]. Section 4.4: the band/row split is derived from
    [num_perm] and the threshold; the index starts empty. *)
Definition new_LSHClusteringLib (threshold : Q) (num_perm : nat)
    : LSHClusteringLib :=
  {| threshold := threshold;
     num_perm := num_perm;
     bands := (band_split threshold num_perm).1;
     rows := (band_split threshold num_perm).2;
     hashtables := ∅ |}.

(** Modelled from the spec: one entry of a signature. Section 4.4: the
    minimum hashed value over the token set, for one hash permutation. *)
Definition min_hash (h : string → Z) (tokens : list string) : Z :=
  match h <$> tokens with
  | [] => empty_hash
  | v :: vs => foldr Z.min v vs
  end.

(** Modelled from the spec: [signature(token_set)]. Section 4.4: for each
    of [num_perm] hash permutations, the minimum hashed value over the
    token set. *)
Definition signature (num_perm : nat) (tokens : list string) : list Z :=
  (λ i, min_hash (permutation i) tokens) <$> seq 0 num_perm.

(** Modelled from the spec: the bands of a signature. Section 4.4: the
    signature is partitioned into bands of [rows] rows each. *)
Definition band_keys (lsh : LSHClusteringLib) (sig : list Z)
    : list (nat * list Z) :=
  (λ i, (i, take (rows lsh) (drop (i * rows lsh) sig)))
    <$> seq 0 (bands lsh).

(** Modelled from the spec: [insert(record_id, signature)]. Section 4.4:
    registers the record under each band's hash in the index. *)
Definition insert_record (record_id : string) (sig : list Z)
    (lsh : LSHClusteringLib) : LSHClusteringLib :=
  {| threshold := threshold lsh;
     num_perm := num_perm lsh;
     bands := bands lsh;
     rows := rows lsh;
     hashtables :=
       foldr (λ k tbl, <[k := {[record_id]} ∪ default ∅ (tbl !! k)]> tbl)
             (hashtables lsh) (band_keys lsh sig) |}.

(** Modelled from the spec: [compute_min_hash_lsh_over_data] of
    [trajclus.lib.lsh_lib]. Sections 2 and 4.4: a signature per record,
    each inserted in the index under its record id; the signatures are
    returned and the index is kept in the object. *)
Definition compute_min_hash_lsh_over_data (lsh : LSHClusteringLib)
    (record_ids : list string) (data : list (list string))
    : list (list Z) * LSHClusteringLib :=
  let records := zip record_ids data in
  ((λ r, signature (num_perm lsh) r.2) <$> records,
   foldl (λ lsh r, insert_record r.1 (signature (num_perm lsh) r.2) lsh)
         lsh records).

(** Modelled from the spec: [query]. Section 4.4: every inserted record
    id sharing at least one band-hash with the signature. *)
Definition query (lsh : LSHClusteringLib) (sig : list Z) : gset string :=
  ⋃ ((λ k, default ∅ (hashtables lsh !! k)) <$> band_keys lsh sig).

(** Modelled from the spec: [query_duplicated_record] of
    [trajclus.lib.lsh_lib]. Sections 4.4 and 4.5: the candidate set of a
    signature, as a list in a fixed order. *)
Definition query_duplicated_record (lsh : LSHClusteringLib)
    (hash : list Z) : list string :=
  elements (query lsh hash).

(** Modelled from the spec: [query_duplicated_record] in a run of the
    program that lists a set of record ids in the order [set_order], which
    the spec (section 4.5) takes to be fixed and a run of Python may
    choose with its hash seed. *)
Definition query_duplicated_record_in (set_order : gset string → list string)
    (lsh : LSHClusteringLib) (hash : list Z) : list string :=
  set_order (query lsh hash).

(** Lines 177-193: the [hash], [duplicated] and [buckets] columns. *)
Definition bucket_keys (record_ids : list string)
    (data : list (list string)) : list string :=
  let lsh_clustering := new_LSHClusteringLib 0.6%Q 128 in
  let '(hash, lsh_clustering) :=
    compute_min_hash_lsh_over_data lsh_clustering record_ids data in
  let duplicated := query_duplicated_record lsh_clustering <$> hash in
  String.concat "_" <$> duplicated.


(** Lines 177-193 in a run that lists candidate sets in the order
    [set_order]. *)
Definition bucket_keys_in (set_order : gset string → list string)
    (record_ids : list string) (data : list (list string)) : list string :=
  let lsh_clustering := new_LSHClusteringLib 0.6%Q 128 in
  let '(hash, lsh_clustering) :=
    compute_min_hash_lsh_over_data lsh_clustering record_ids data in
  let duplicated :=
    query_duplicated_record_in set_order lsh_clustering <$> hash in
  String.concat "_" <$> duplicated.

End min_hash_lsh.

(** ** Bucket reduction (lines 195-210 of [main]) *)

(** [Series.unique()]: the distinct values in order of first appearance. *)
Fixpoint unique (l : list string) : list string :=
  match l with
  | [] => []
  | b :: l' => b :: filter (λ c, c ≠ b) (unique l')
  end.

(** [groupby('buckets').size().to_dict()]: bucket key to row count. *)
Definition groupby_size (l : list string) : gmap string nat :=
  foldr (λ b m, <[b := S (default 0%nat (m !! b))]> m) ∅ l.

(** [list.index(x)]: position of the first element equal to [x]. *)
Fixpoint index (x : string) (l : list string) : option nat :=
  match l with
  | [] => None
  | y :: l' => if decide (x = y) then Some 0%nat else S <$> index x l'
  end.

Definition convert_to_cluster_number (bucket_label : string)
    (unique_buckets : list string) (n_curve_per_bucket : gmap string nat)
    : result Z :=
  match n_curve_per_bucket !! bucket_label with
  | None => Raise KeyError
  | Some n =>
      if (n <=? 5)%nat then Ok (-1)
      else match index bucket_label unique_buckets with
           | None => Raise ValueError
           | Some i => Ok (Z.of_nat i)
           end
  end.

(** The list comprehension that fills [flight_df['cluster']]. *)
Definition cluster_labels (buckets : list string) : result (list Z) :=
  let unique_buckets := unique buckets in
  let n_curve_per_bucket := groupby_size buckets in
  mapM (λ bucket,
          convert_to_cluster_number bucket unique_buckets n_curve_per_bucket)
       buckets.

(** Number of rows of the bucket column that carry key [b]. *)
Definition population (b : string) (buckets : list string) : nat :=
  length (filter (λ c, c = b) buckets).

(** The distinct keys whose population exceeds the minimum, first seen first. *)
Definition surviving (buckets : list string) : list string :=
  filter (λ b, (5 < population b buckets)%nat) (unique buckets).

(** The reading of the invariant in which the ids of the surviving buckets
    fill an initial segment of the naturals: an id is carried by some
    non-noise record exactly when it is below the number of survivors. *)
Definition ids_fill_initial_segment (buckets : list string) (labels : list Z)
    : Prop :=
  ∀ c : Z,
    (c ≠ -1 ∧ ∃ i : nat, labels !! i = Some c)
    ↔ 0 ≤ c < Z.of_nat (length (surviving buckets)).

(** Closed form of [convert_to_cluster_number] on a key of the column:
    neither dictionary lookup nor [list.index] can fail there. *)
Definition label_of (buckets : list string) (b : string) : Z :=
  if (population b buckets <=? 5)%nat then -1
  else Z.of_nat (default 0%nat (index b (unique buckets))).

(** ** Evaluation (lines 71-77 and 219-227 of [main]) *)

(** [X[i, j]] of a matrix held as a list of rows. *)
Definition entry (X : list (list Q)) (i j : nat) : Q :=
  default 0%Q (X !! i ≫= λ row, row !! j).

(** The samples that carry label [c]. *)
Definition members (labels : list Z) (c : Z) : list nat :=
  filter (λ j, labels !! j = Some c) (seq 0 (length labels)).

Definition dist_to_cluster (X : list (list Q)) (labels : list Z)
    (i : nat) (c : Z) : Q :=
  Qsum (entry X i <$> members labels c).

Definition Qminimum (l : list Q) : Q :=
  match l with
  | [] => 0%Q
  | d :: l' => foldr Qmin d l'
  end.

(** One entry of [silhouette_samples]: with [a] the mean distance to the
    other members of the sample's cluster and [b] the smallest mean
    distance to another cluster, [(b - a) / max(a, b)]; the undefined
    quotients of a one-member cluster and of [a = b = 0] are turned into
    0 by [nan_to_num]. *)
Definition silhouette_sample (X : list (list Q)) (labels : list Z)
    (i : nat) : Q :=
  let own := default 0 (labels !! i) in
  let freq := λ c, length (members labels c) in
  if (freq own =? 1)%nat then 0%Q
  else
    let intra := (dist_to_cluster X labels i own / Qcount (freq own - 1))%Q in
    let others := filter (λ c, c ≠ own) (remove_dups labels) in
    let inter :=
      Qminimum ((λ c, dist_to_cluster X labels i c / Qcount (freq c))%Q
                  <$> others) in
    let top := Qmax intra inter in
    if Qeq_bool top 0 then 0%Q else ((inter - intra) / top)%Q.

Definition is_square (n : nat) (X : list (list Q)) : bool :=
  (length X =? n)%nat && forallb (λ row, (length row =? n)%nat) X.

(** The largest magnitude a diagonal entry of a precomputed matrix of
    64-bit floats may have: a hundred times the machine epsilon. *)
Definition diagonal_atol : Q := (100 / inject_Z (2 ^ 52))%Q.

(** scikit-learn's [silhouette_score(X, labels, metric='precomputed')]:
    [X] is to be square with one row per label, without a negative entry
    and with a diagonal of zeros, and the number of distinct labels is
    to lie between 2 and [n_samples - 1]; otherwise a [ValueError] is
    raised. The score is the mean of the samples. *)
Definition silhouette_score (X : list (list Q)) (labels : list Z)
    : result Q :=
  let n_samples := length labels in
  if negb (is_square n_samples X) then Raise ValueError
  else if negb (forallb (λ i, Qle_bool (Qabs (entry X i i)) diagonal_atol)
                        (seq 0 n_samples))
  then Raise ValueError
  else if negb (forallb (forallb (Qle_bool 0)) X) then Raise ValueError
  else
    let n_labels := n_distinct labels in
    if negb ((1 <? n_labels)%nat && (n_labels <? n_samples)%nat)
    then Raise ValueError
    else
      Ok (Qsum (silhouette_sample X labels <$> seq 0 n_samples)
          / Qcount n_samples)%Q.

Definition compute_silhouette_score (feature_matrix : list (list Q))
    (labels : list Z) : result Q :=
  let silhouette_val := silhouette_score feature_matrix labels in
  silhouette_val.

(** A valid distance matrix over [n] samples: square, non-negative,
    zero on the diagonal and symmetric. *)
Definition valid_distance_matrix (n : nat) (X : list (list Q)) : bool :=
  is_square n X
  && forallb (forallb (Qle_bool 0)) X
  && forallb (λ i, Qeq_bool (entry X i i) 0) (seq 0 n)
  && forallb (λ i, forallb (λ j, Qeq_bool (entry X i j) (entry X j i))
                           (seq 0 n))
             (seq 0 n).

(** The labels of the records that are not noise. *)
Definition non_noise (labels : list Z) : list Z :=
  filter (λ c, c ≠ -1) labels.

(** ** The pipeline ([main], lines 98-240) *)

(** What the loading and filtering steps hand to the clustering core: the
    flight ids of the approach window, the rows of the entrance window,
    and the [idx] and [trajectory] columns of [flight_df]. *)
Record Inputs : Type := {
  flight_ids : list string;
  entrance_to_airport : list Row;
  idx : list string;
  trajectory : list (list Point);
}.

(** What [main] passes on to [traffic_flight_plot]. *)
Record Plot : Type := {
  plot_flight_ids : list string;
  clusters : list Z;
  group_clusters : list Point;
  silhouette_val : Q;
}.

Section pipeline.
Context `{E : Externals}.
Variable ambient : RandomState.

Definition main (inputs : Inputs) (max_flights : nat) : result Plot :=
  let entrance_trajectories :=
    entrance_trajectories (entrance_to_airport inputs) (flight_ids inputs)
                          max_flights in
  let simplified_coords :=
    (λ curve, simplify_coordinator curve 0.0001%Q)
      <$> entrance_trajectories in
  point_coords ← match simplified_coords with
                  | [] => Raise IndexError
                  | first :: others => Ok (foldl app first others)
                  end;
  let detect_entrance_algo := "k-means" in
  '(reduced_groups, classifier) ←
    detect_entrance_ways ambient point_coords detect_entrance_algo;
  groups ←
    entrance_groups ambient detect_entrance_algo classifier
                    entrance_trajectories;
  if negb (length groups =? length (idx inputs))%nat then Raise ValueError
  else
    let groups := group_labels groups in
    let buckets := bucket_keys (idx inputs) groups in
    cluster_labels ← cluster_labels buckets;
    let dist_matrix := build_matrix_distances (trajectory inputs) in
    silhouette_val ← compute_silhouette_score dist_matrix cluster_labels;
    Ok {| plot_flight_ids := idx inputs;
          clusters := cluster_labels;
          group_clusters := reduced_groups;
          silhouette_val := silhouette_val |}.

End pipeline.

(** ** Runs of the pipeline

    What one execution of [main] adds to its arguments: the state of the
    process-wide generator, and the order in which the run lists a set
    of record ids. [main] is the run that lists them as [elements]
    does. *)

Section runs.
Context `{E : Externals}.

Definition main_run (set_order : gset string → list string)
    (ambient : RandomState) (inputs : Inputs) (max_flights : nat)
    : result Plot :=
  let entrance_trajectories :=
    entrance_trajectories (entrance_to_airport inputs) (flight_ids inputs)
                          max_flights in
  let simplified_coords :=
    (λ curve, simplify_coordinator curve 0.0001%Q)
      <$> entrance_trajectories in
  point_coords ← match simplified_coords with
                  | [] => Raise IndexError
                  | first :: others => Ok (foldl app first others)
                  end;
  let detect_entrance_algo := "k-means" in
  '(reduced_groups, classifier) ←
    detect_entrance_ways ambient point_coords detect_entrance_algo;
  groups ←
    entrance_groups ambient detect_entrance_algo classifier
                    entrance_trajectories;
  if negb (length groups =? length (idx inputs))%nat then Raise ValueError
  else
    let groups := group_labels groups in
    let buckets := bucket_keys_in set_order (idx inputs) groups in
    cluster_labels ← cluster_labels buckets;
    let dist_matrix := build_matrix_distances (trajectory inputs) in
    silhouette_val ← compute_silhouette_score dist_matrix cluster_labels;
    Ok {| plot_flight_ids := idx inputs;
          clusters := cluster_labels;
          group_clusters := reduced_groups;
          silhouette_val := silhouette_val |}.

End runs.

(** ** An instance of the collaborators

    A small stand-in on which the functions above can be run: the
    generator is a counter started at its seed, every DBSCAN label is 0,
    and a signature entry hashes the character codes of a token. *)

Definition string_code (s : string) : Z :=
  foldr (λ c acc, Z.of_nat (Ascii.nat_of_ascii c) + 31 * acc) 7
        (String.list_ascii_of_string s).

Program Definition sample_externals : Externals := {|
  RandomState := Z;
  seed_rng := λ seed, seed;
  randint := λ rng n, ((Z.to_nat rng `mod` n)%nat, rng + 1);
  random_sample := λ rng, ((inject_Z (rng `mod` 10) / 10)%Q, rng + 1);
  log_floor := λ n, (Nat.log2 n * 7 / 10)%nat;
  dbscan_fit := λ _ _ X, Ok ((λ _, 0) <$> X);
  radians := λ q, (q * 3.14159265 / 180)%Q;
  great_circle_m := sq_euclidean;
  KM_PER_RADIAN := 6371.0088%Q;
  build_matrix_distances := λ trajs,
    (λ i, (λ j, if (i =? j)%nat then 0%Q else 1%Q) <$> seq 0 (length trajs))
      <$> seq 0 (length trajs);
  permutation := λ i s,
    ((Z.of_nat i + 1) * string_code s + Z.of_nat i) `mod` 4294967291;
  empty_hash := 4294967295;
  band_split := λ _ num_perm, ((num_perm / 4)%nat, 4%nat);
|}.
Next Obligation.
  intros _ _ X labels [= <-]. by rewrite length_fmap.
Qed.
(** ** The rest of [main] *)

(** Lines 212-214: the count printed as "Non-outlier cluster number",
    [len(flight_df[flight_df['cluster'] != -1]['cluster'].unique())]. *)
Definition non_outlier_cluster_number (cluster_labels : list Z) : nat :=
  n_distinct (non_noise cluster_labels).

(** [s.split(sep)] for a one-character separator: the pieces between the
    separators, of which there is always at least one. *)
Fixpoint split_on (sep : Ascii.ascii) (s : string) : list string :=
  match s with
  | EmptyString => [EmptyString]
  | String c s' =>
      match split_on sep s' with
      | [] => [EmptyString]
      | w :: ws =>
          if Ascii.eqb c sep then EmptyString :: w :: ws
          else String c w :: ws
      end
  end.

(** [s.replace(old, new)] for a non-empty [old]: the occurrences of [old]
    are found from the left and do not overlap; [skip] counts the
    characters of a found occurrence that are still to be passed over. *)
Fixpoint replace_from (old new : string) (skip : nat) (s : string) : string :=
  match s with
  | EmptyString => EmptyString
  | String c s' =>
      match skip with
      | S skip' => replace_from old new skip' s'
      | O =>
          if String.prefix old s
          then new +:+ replace_from old new (String.length old - 1) s'
          else String c (replace_from old new 0 s')
      end
  end.

Definition replace (old new s : string) : string := replace_from old new 0 s.

(** The characters ['/'], ['.'] and ['_']. *)
Definition slash : Ascii.ascii := Ascii.ascii_of_nat 47.
Definition dot : Ascii.ascii := Ascii.ascii_of_nat 46.

(** The characters of a string, in order. *)
Definition chars (s : string) : list Ascii.ascii :=
  String.list_ascii_of_string s.


(** Line 101: [input_path.split("/")[-1].replace(".csv", "")]. *)
Definition file_name (input_path : string) : string :=
  replace ".csv" "" (List.last (split_on slash input_path) EmptyString).

(** The ids of a set in alphabetical order, one way for a run to list
    them. *)
Definition alphabetical (ids : gset string) : list string :=
  merge_sort (λ a b, String.leb a b) (elements ids).

(** ** A second instance of the collaborators

    As [sample_externals], but with a DBSCAN whose radius reaches no
    neighbour: with [min_samples] at most 1 every point is a cluster of
    its own, labelled by its position, and otherwise every point is
    noise. *)
Program Definition isolating_externals : Externals := {|
  RandomState := Z;
  seed_rng := λ seed, seed;
  randint := λ rng n, ((Z.to_nat rng `mod` n)%nat, rng + 1);
  random_sample := λ rng, ((inject_Z (rng `mod` 10) / 10)%Q, rng + 1);
  log_floor := λ n, (Nat.log2 n * 7 / 10)%nat;
  dbscan_fit := λ _ min_samples X,
    if (min_samples <=? 1)%nat then Ok (Z.of_nat <$> seq 0 (length X))
    else Ok ((λ _, -1) <$> X);
  radians := λ q, (q * 3.14159265 / 180)%Q;
  great_circle_m := sq_euclidean;
  KM_PER_RADIAN := 6371.0088%Q;
  build_matrix_distances := λ trajs,
    (λ i, (λ j, if (i =? j)%nat then 0%Q else 1%Q) <$> seq 0 (length trajs))
      <$> seq 0 (length trajs);
  permutation := λ i s,
    ((Z.of_nat i + 1) * string_code s + Z.of_nat i) `mod` 4294967291;
  empty_hash := 4294967295;
  band_split := λ _ num_perm, ((num_perm / 4)%nat, 4%nat);
|}.
Next Obligation.
  intros radius min_samples X labels. simpl.
  destruct (min_samples <=? 1)%nat; intros [= <-];
    by rewrite length_fmap, ?length_seq.
Qed.

(** ** A sample input

    Seven flights of two entrance rows each: the first flies one path,
    the other six share another. *)

Definition sample_rows (fid : string) (p1 p2 : Point) : list Row :=
  [ {| Flight_ID := fid; DRemains := 2.5;
       Latitude := p2.1; Longitude := p2.2 |};
    {| Flight_ID := fid; DRemains := 3.0;
       Latitude := p1.1; Longitude := p1.2 |} ].

Definition sample_inputs : Inputs :=
  {| flight_ids := ["f1"; "f2"; "f3"; "f4"; "f5"; "f6"; "f7"];
     entrance_to_airport :=
       sample_rows "f1" (10, 10)%Q (11, 12)%Q
       ++ sample_rows "f2" (0, 0)%Q (1, 2)%Q
       ++ sample_rows "f3" (0, 0)%Q (1, 2)%Q
       ++ sample_rows "f4" (0, 0)%Q (1, 2)%Q
       ++ sample_rows "f5" (0, 0)%Q (1, 2)%Q
       ++ sample_rows "f6" (0, 0)%Q (1, 2)%Q
       ++ sample_rows "f7" (0, 0)%Q (1, 2)%Q;
     idx := ["f1"; "f2"; "f3"; "f4"; "f5"; "f6"; "f7"];
     trajectory := [[(10, 10); (11, 12)]%Q;
                    [(0, 0); (1, 2)]%Q; [(0, 0); (1, 2)]%Q;
                    [(0, 0); (1, 2)]%Q; [(0, 0); (1, 2)]%Q;
                    [(0, 0); (1, 2)]%Q; [(0, 0); (1, 2)]%Q] |}.

(* ================================================================= *)
(** * Properties *)

(** ** The error monad *)

Lemma mapM_result_ok {A B} (f : A → result B) (g : A → B) (l : list A) :
  (∀ x, x ∈ l → f x = Ok (g x)) → mapM f l = Ok (g <$> l).
Proof.
  induction l as [|x l IH]; intros Hf; simpl; [done|].
  rewrite Hf by constructor. simpl.
  rewrite IH; [done|]. intros y ?. apply Hf. by constructor.
Qed.

(** ** The k-means fit *)

Section k_means_shape.
Context `{E : Externals}.

(** A step of the seeding adds one centre. *)
Lemma kmeans_plusplus_next_length (X : list Point) (n_local_trials : nat)
    (state : list Point * list Q * RandomState) :
  length (kmeans_plusplus_next X n_local_trials state).1.1
  = S (length state.1.1).
Proof.
  destruct state as [[centers closest_dist_sq] rng].
  unfold kmeans_plusplus_next.
  destruct (uniform n_local_trials rng) as [rand_vals rng'].
  cbn [fst snd]. rewrite length_app. cbn [length]. lia.
Qed.

Lemma kmeans_plusplus_iter_length (X : list Point) (n_local_trials n : nat)
    (state : list Point * list Q * RandomState) :
  length (Nat.iter n (kmeans_plusplus_next X n_local_trials) state).1.1
  = (n + length state.1.1)%nat.
Proof.
  induction n as [|n IH]; [done|].
  change (Nat.iter (S n) (kmeans_plusplus_next X n_local_trials) state)
    with (kmeans_plusplus_next X n_local_trials
            (Nat.iter n (kmeans_plusplus_next X n_local_trials) state)).
  by rewrite kmeans_plusplus_next_length, IH.
Qed.

(** The seeding chooses as many centres as there are clusters. *)
Lemma kmeans_plusplus_length (X : list Point) (n_clusters : nat)
    (rng : RandomState) :
  (1 ≤ n_clusters)%nat →
  length (kmeans_plusplus X n_clusters rng).1 = n_clusters.
Proof.
  intros Hk. unfold kmeans_plusplus.
  destruct (randint rng (length X)) as [center_id rng'].
  pose proof (kmeans_plusplus_iter_length X (2 + log_floor n_clusters)
                (n_clusters - 1)
                ([sample_at X center_id], dists_to X (sample_at X center_id),
                 rng')) as Hlen.
  destruct (Nat.iter _ _ _) as [[centers closest_dist_sq] rng''].
  cbn [fst snd length] in *. lia.
Qed.

(** An iteration of Lloyd's algorithm moves the centres and keeps their
    number. *)
Lemma lloyd_iter_length (X centers : list Point) :
  length (lloyd_iter X centers).2 = length centers.
Proof. unfold lloyd_iter. simpl. by rewrite length_fmap, length_seq. Qed.

Lemma lloyd_length (n_iter : nat) (X : list Point) (tol : Q)
    (labels_old : list Z) (centers : list Point) :
  length (lloyd n_iter X tol labels_old centers) = length centers.
Proof.
  revert labels_old centers.
  induction n_iter as [|n_iter IH]; intros labels_old centers; [done|].
  cbn [lloyd]. pose proof (lloyd_iter_length X centers) as Hiter.
  destruct (lloyd_iter X centers) as [labels centers_new].
  cbn [snd] in Hiter.
  destruct (bool_decide _); [done|].
  destruct (Qle_bool _ _); [done|]. by rewrite IH.
Qed.

Lemma kmeans_single_length (X : list Point) (n_clusters : nat)
    (rng : RandomState) :
  (1 ≤ n_clusters)%nat →
  length (kmeans_single X n_clusters rng).1.2 = n_clusters.
Proof.
  intros Hk. unfold kmeans_single.
  pose proof (kmeans_plusplus_length X n_clusters rng Hk) as Hinit.
  destruct (kmeans_plusplus X n_clusters rng) as [centers_init rng'].
  cbn [fst snd] in *. by rewrite lloyd_length.
Qed.

Lemma kmeans_runs_length (n : nat) (X : list Point) (n_clusters : nat)
    (best : Q * list Point) (rng : RandomState) :
  (1 ≤ n_clusters)%nat → length best.2 = n_clusters →
  length (kmeans_runs n X n_clusters best rng).1 = n_clusters.
Proof.
  intros Hk. revert best rng.
  induction n as [|n IH]; intros best rng Hbest; [done|].
  cbn [kmeans_runs].
  pose proof (kmeans_single_length X n_clusters rng Hk) as Hrun.
  destruct (kmeans_single X n_clusters rng) as [[inertia centers] rng'].
  apply IH. by destruct (Qle_bool _ _).
Qed.

(** The fit ends with one centre per cluster: the seeding chooses that
    many, no iteration changes their number, and the centres kept are
    those of one of the runs. *)
Lemma kmeans_centers_length (rng : RandomState) (n_clusters : nat)
    (X : list Point) :
  (1 ≤ n_clusters)%nat → length (kmeans_centers rng n_clusters X) = n_clusters.
Proof.
  intros Hk. unfold kmeans_centers, k_means.
  pose proof (kmeans_single_length X n_clusters rng Hk) as Hrun.
  destruct (kmeans_single X n_clusters rng) as [[inertia centers] rng'].
  by apply kmeans_runs_length.
Qed.

End k_means_shape.

(** ** Corridor detection *)

(** C1, as stated, fails: the selector ['optics'] is not recognized, and
    detection returns an empty corridor list with [False] for the
    classifier instead of raising. *)
Lemma unknown_selector_returns_empty :
  ("optics" ∉ ["k-means"; "dbscan"]) ∧
  raises (detect_entrance_ways (E := sample_externals) 0
            [(1.35, 103.99); (1.36, 104.02)]%Q "optics") = false ∧
  detect_entrance_ways (E := sample_externals) 0
    [(1.35, 103.99); (1.36, 104.02)]%Q "optics" = Ok ([], NoClassifier).
Proof.
  split; [|split; reflexivity].
  intros H. repeat (apply elem_of_cons in H as [H|H]; [discriminate H|]).
  by apply elem_of_nil in H.
Qed.

(** C1, amended. For every point pool and every selector other than
    ['k-means'] and ['dbscan'], corridor detection returns normally, with
    an empty corridor list and [False] in place of the classifier. *)
Theorem unknown_selector_detects_nothing `{E : Externals}
    (ambient : RandomState) (point_coords : list Point) (algorithm : string) :
  algorithm ≠ "k-means" → algorithm ≠ "dbscan" →
  detect_entrance_ways ambient point_coords algorithm = Ok ([], NoClassifier).
Proof.
  intros Hk Hd. unfold detect_entrance_ways.
  rewrite bool_decide_eq_false_2; [done|].
  intros H. repeat (apply elem_of_cons in H as [H|H]; [done|]).
  by apply elem_of_nil in H.
Qed.

Lemma unknown_selector_detects_nothing_witness :
  detect_entrance_ways (E := sample_externals) 0 [(1.35, 103.99)]%Q "optics"
  = Ok ([], NoClassifier).
Proof.
  apply (unknown_selector_detects_nothing (E := sample_externals));
    discriminate.
Defined.

(** C8, as stated, fails: a pool of one point is not empty, yet k-means
    detection (k = 9) raises [ValueError] instead of returning 9 centres. *)
Lemma kmeans_refuses_small_pool :
  [(1.35, 103.99)]%Q ≠ ([] : list Point) ∧
  kmeans_clustering (E := sample_externals) 0 [(1.35, 103.99)]%Q 9
    = Raise ValueError ∧
  detect_entrance_ways (E := sample_externals) 0 [(1.35, 103.99)]%Q "k-means"
    = Raise ValueError.
Proof. split; [discriminate|split; reflexivity]. Qed.

(** The two outcomes of [kmeans_clustering]. *)
Lemma kmeans_clustering_cases `{E : Externals} (ambient : RandomState)
    (coords : list Point) (k_cluster : nat) :
  (1 ≤ k_cluster)%nat →
  if decide (k_cluster ≤ length coords)%nat
  then ∃ kmeans,
         kmeans_clustering ambient coords k_cluster
           = Ok (cluster_centers_ kmeans, kmeans) ∧
         length (cluster_centers_ kmeans) = k_cluster
  else kmeans_clustering ambient coords k_cluster = Raise ValueError.
Proof.
  intros Hk. unfold kmeans_clustering, KMeans_fit.
  destruct (Nat.eqb_spec k_cluster 0) as [->|_]; [lia|]. simpl.
  destruct (decide _) as [Hle|Hgt].
  - rewrite (proj2 (Nat.ltb_ge _ _) Hle). simpl.
    eexists {| n_clusters := _ |}. simpl. split; [done|].
    by apply kmeans_centers_length.
  - rewrite (proj2 (Nat.ltb_lt _ _)) by lia. done.
Qed.

(** C8, amended. For k at least 1, k-means corridor detection returns
    exactly k corridor centres on every pool of at least k points, and
    raises [ValueError] on every pool of fewer than k points. *)
Theorem kmeans_returns_k_centers `{E : Externals} (ambient : RandomState)
    (coords : list Point) (k_cluster : nat) :
  (1 ≤ k_cluster)%nat →
  if decide (k_cluster ≤ length coords)%nat
  then ∃ centers kmeans,
         kmeans_clustering ambient coords k_cluster = Ok (centers, kmeans) ∧
         length centers = k_cluster
  else kmeans_clustering ambient coords k_cluster = Raise ValueError.
Proof.
  intros Hk.
  pose proof (kmeans_clustering_cases ambient coords k_cluster Hk) as Hcases.
  destruct (decide _); [|done].
  destruct Hcases as (kmeans & Hfit & Hlen).
  by exists (cluster_centers_ kmeans), kmeans.
Qed.

Lemma kmeans_returns_k_centers_witness :
  ∃ centers kmeans,
    kmeans_clustering (E := sample_externals) 0
      [(0, 0); (1, 0); (0, 1)]%Q 2 = Ok (centers, kmeans) ∧
    length centers = 2%nat.
Proof.
  apply (kmeans_returns_k_centers (E := sample_externals) 0
           [(0, 0); (1, 0); (0, 1)]%Q 2).
  lia.
Defined.

(** C10. With [epsilon=None] or [epsilon=0], [dbscan_clustering] fits
    DBSCAN with the radius [max_distance / KM_PER_RADIAN], whatever the
    coordinates and the maximum distance: the estimator it returns holds
    that radius, so a zero [epsilon] cannot be asked for. *)
Theorem dbscan_falsy_epsilon `{E : Externals} (coords : list Point)
    (min_sample : nat) (max_distance : Q) :
  let run := λ radius : Q,
    db ← DBSCAN_fit radius min_sample
           ((λ p, (radians p.1, radians p.2)) <$> coords);
    centers ← mapM get_centermost_point
      ((λ n, rows_labelled coords (labels_ db) (Z.of_nat n))
         <$> seq 0 (n_distinct (labels_ db)));
    Ok (centers, db) in
  dbscan_clustering coords min_sample max_distance None
    = run (max_distance / KM_PER_RADIAN)%Q ∧
  dbscan_clustering coords min_sample max_distance (Some 0%Q)
    = run (max_distance / KM_PER_RADIAN)%Q ∧
  match dbscan_clustering coords min_sample max_distance (Some 0%Q) with
  | Ok (_, db) => eps db = (max_distance / KM_PER_RADIAN)%Q
  | Raise _ => True
  end.
Proof.
  intros run. split; [done|]. split; [done|].
  change (dbscan_clustering coords min_sample max_distance (Some 0%Q))
    with (run (max_distance / KM_PER_RADIAN)%Q).
  unfold run, DBSCAN_fit.
  destruct (dbscan_fit _ _ _) as [labels|]; simpl; [|done].
  by destruct (mapM _ _).
Qed.

(** ** Trajectory simplification *)

Section simplifier.
Implicit Types (a b p q : Point) (m : list Point) (epsilon d : Q).

Lemma Qle_bool_false (x y : Q) : Qle_bool x y = false ↔ (y < x)%Q.
Proof.
  rewrite <- not_true_iff_false, Qle_bool_iff. split.
  - apply Qnot_le_lt.
  - apply Qlt_not_le.
Qed.

Lemma farthest_None a b m : farthest a b m = None → m = [].
Proof.
  destruct m as [|x m]; [done|]. simpl.
  by destruct (farthest a b m) as [[[? ?] ?]|]; [destruct (Qle_bool _ _)|].
Qed.

Lemma farthest_spec a b m i p d :
  farthest a b m = Some (i, p, d) →
  m !! i = Some p ∧ d = deviation a b p ∧
  (∀ q, q ∈ take i m → (deviation a b q < d)%Q) ∧
  (∀ q, q ∈ m → (deviation a b q <= d)%Q).
Proof.
  revert i p d. induction m as [|x m IH]; intros i p d; simpl; [done|].
  destruct (farthest a b m) as [[[j q'] d']|] eqn:Hf.
  - destruct (IH _ _ _ eq_refl) as (Hj & -> & Hlt & Hle).
    destruct (Qle_bool _ _) eqn:Hcmp; intros [= <- <- <-]; simpl.
    + apply Qle_bool_iff in Hcmp. repeat split; [by intros ? ?%elem_of_nil|].
      intros q [->|Hq]%elem_of_cons; [apply Qle_refl|].
      eapply Qle_trans; [by apply Hle|done].
    + apply Qle_bool_false in Hcmp. repeat split; [done| |].
      * intros q [->|Hq]%elem_of_cons; [done|by apply Hlt].
      * intros q [->|Hq]%elem_of_cons; [by apply Qlt_le_weak|by apply Hle].
  - intros [= <- <- <-]. apply farthest_None in Hf as ->.
    repeat split; [by intros ? ?%elem_of_nil|].
    intros q [->|Hq%elem_of_nil]%elem_of_cons; [apply Qle_refl|done].
Qed.

Lemma farthest_intro a b l1 p l2 :
  (∀ q, q ∈ l1 → (deviation a b q < deviation a b p)%Q) →
  (∀ q, q ∈ l2 → (deviation a b q <= deviation a b p)%Q) →
  farthest a b (l1 ++ p :: l2) = Some (length l1, p, deviation a b p).
Proof.
  intros Hlt Hle. induction l1 as [|x l1 IH]; simpl.
  - destruct (farthest a b l2) as [[[j q] d']|] eqn:Hf; [|done].
    apply farthest_spec in Hf as (Hj & -> & _).
    assert (Qle_bool (deviation a b q) (deviation a b p) = true) as ->; [|done].
    apply Qle_bool_iff, Hle. by eapply list_elem_of_lookup_2.
  - rewrite IH by (intros; apply Hlt; by constructor).
    assert (Qle_bool (deviation a b p) (deviation a b x) = false) as ->; [|done].
    apply Qle_bool_false, Hlt. constructor.
Qed.

Lemma kept_between_elem_of fuel epsilon a m b q :
  q ∈ kept_between fuel epsilon a m b → q ∈ m.
Proof.
  revert a m b. induction fuel as [|fuel IH]; intros a m b; simpl;
    [by intros ?%elem_of_nil|].
  destruct (farthest a b m) as [[[i p] d]|] eqn:Hf; [|by intros ?%elem_of_nil].
  destruct (exceeds d epsilon); [|by intros ?%elem_of_nil].
  apply farthest_spec in Hf as (Hi & _).
  rewrite elem_of_app, elem_of_cons. intros [Hq|[->|Hq]].
  - apply IH in Hq. by eapply subseteq_take.
  - by eapply list_elem_of_lookup_2.
  - apply IH in Hq. by eapply subseteq_drop.
Qed.

Lemma kept_between_length fuel epsilon a m b :
  (length (kept_between fuel epsilon a m b) ≤ length m)%nat.
Proof.
  revert a m b. induction fuel as [|fuel IH]; intros a m b; simpl; [lia|].
  destruct (farthest a b m) as [[[i p] d]|] eqn:Hf; simpl; [|lia].
  destruct (exceeds d epsilon); simpl; [|lia].
  apply farthest_spec in Hf as (Hi%lookup_lt_Some & _).
  rewrite length_app. simpl.
  pose proof (IH a (take i m) p). pose proof (IH p (drop (S i) m) b).
  rewrite length_take in *. rewrite length_drop in *. lia.
Qed.

Lemma kept_between_fuel fuel fuel' epsilon a m b :
  (length m ≤ fuel)%nat → (length m ≤ fuel')%nat →
  kept_between fuel epsilon a m b = kept_between fuel' epsilon a m b.
Proof.
  revert fuel' a m b. induction fuel as [|fuel IH]; intros fuel' a m b H1 H2.
  - destruct m; [|simpl in *; lia]. by destruct fuel'.
  - destruct fuel' as [|fuel'].
    + destruct m; [done|simpl in *; lia].
    + simpl. destruct (farthest a b m) as [[[i p] d]|] eqn:Hf; [|done].
      destruct (exceeds d epsilon); [|done].
      apply farthest_spec in Hf as (Hi%lookup_lt_Some & _).
      rewrite (IH fuel' a), (IH fuel' p); [done|..];
        rewrite ?length_take, ?length_drop; lia.
Qed.

Lemma kept_between_idemp fuel epsilon a m b :
  (length m ≤ fuel)%nat →
  kept_between fuel epsilon a (kept_between fuel epsilon a m b) b =
    kept_between fuel epsilon a m b.
Proof.
  revert a m b. induction fuel as [|fuel IH]; intros a m b Hlen; [done|].
  simpl. destruct (farthest a b m) as [[[i p] d]|] eqn:Hf; [|done].
  destruct (exceeds d epsilon) eqn:Hex; [|done].
  pose proof Hf as (Hi & -> & Hlt & Hle)%farthest_spec.
  pose proof (lookup_lt_Some _ _ _ Hi).
  set (kl := kept_between fuel epsilon a (take i m) p).
  set (kr := kept_between fuel epsilon p (drop (S i) m) b).
  rewrite (farthest_intro a b kl p kr).
  - rewrite Hex. rewrite take_app_length.
    replace (S (length kl)) with (length (kl ++ [p])) by (rewrite length_app; simpl; lia).
    rewrite (cons_middle p kl kr), app_assoc, drop_app_length.
    unfold kl, kr.
    rewrite !IH; [by rewrite <- app_assoc|..]; rewrite ?length_take, ?length_drop; lia.
  - intros q Hq%kept_between_elem_of. by apply Hlt.
  - intros q Hq%kept_between_elem_of. apply Hle. by eapply subseteq_drop.
Qed.

Lemma removelast_snoc (l : list Point) b : removelast (l ++ [b]) = l.
Proof. rewrite removelast_app by done. simpl. by rewrite app_nil_r. Qed.

Lemma last_snoc (l : list Point) a b : List.last (l ++ [b]) a = b.
Proof. apply last_last. Qed.

End simplifier.

(** C9. Simplifying twice with the same tolerance changes nothing more:
    [simplify(simplify(T, e), e) = simplify(T, e)] for every point sequence
    and every tolerance. The simplifier is a function of the sequence and
    the tolerance alone; it draws on no random source. *)
Theorem simplify_idempotent (T : list Point) (e : Q) :
  simplify_coordinator (simplify_coordinator T e) e = simplify_coordinator T e.
Proof.
  destruct T as [|a [|x rest]]; [done..|].
  set (m := removelast (x :: rest)). set (b := List.last (x :: rest) a).
  set (K := kept_between (length m) e a m b).
  assert (simplify_coordinator (a :: x :: rest) e = a :: K ++ [b]) as ->
    by reflexivity.
  assert (simplify_coordinator (a :: K ++ [b]) e =
          a :: kept_between (length K) e a K b ++ [b]) as ->.
  { unfold simplify_coordinator.
    destruct (K ++ [b]) as [|y l] eqn:HK; [by destruct K|].
    rewrite <- HK, removelast_snoc, last_snoc. done. }
  do 2 f_equal.
  rewrite (kept_between_fuel _ (length m)); [apply kept_between_idemp; lia|lia|].
  apply kept_between_length.
Qed.

(** ** Tokenization *)

#[local] Instance further_total : Total further.
Proof.
  intros r1 r2. unfold further. rewrite !Qle_bool_iff.
  destruct (Qlt_le_dec (DRemains r1) (DRemains r2)) as [Hlt|Hle]; [|by left].
  right. by apply Qlt_le_weak.
Qed.

(** C7, as stated, fails: three collinear entrance points are simplified
    to their two end points, yet the trajectory gets three labels, one
    per point of the unsimplified segment. *)
Lemma tokens_outnumber_simplified_points :
  let traj := [(1.0, 103.0); (1.1, 103.1); (1.2, 103.2)]%Q in
  let kmeans :=
    {| n_clusters := 9; random_state := Some 0;
       cluster_centers_ :=
         [(1.0, 103.0); (1.1, 103.1); (1.2, 103.2); (1.3, 103.3);
          (1.4, 103.4); (1.5, 103.5); (1.6, 103.6); (1.7, 103.7);
          (1.8, 103.8)]%Q |} in
  group_labels <$> entrance_groups (E := sample_externals) 0 "k-means"
                     (KMeansClassifier kmeans) [traj]
    = Ok [["G0"; "G1"; "G2"]] ∧
  simplify_coordinator traj 0.0001%Q = [(1.0, 103.0); (1.2, 103.2)]%Q ∧
  length ["G0"; "G1"; "G2"] ≠ length (simplify_coordinator traj 0.0001%Q).
Proof. vm_compute. repeat split; discriminate. Qed.

(** The classifier [main] works with: what ['k-means'] detection returns
    on success is a fitted [KMeans] whose centres are the corridors. *)
Lemma detect_entrance_ways_kmeans `{E : Externals} (ambient : RandomState)
    (point_coords centers : list Point) (classifier : Classifier) :
  detect_entrance_ways ambient point_coords "k-means"
    = Ok (centers, classifier) →
  ∃ kmeans, classifier = KMeansClassifier kmeans ∧
            cluster_centers_ kmeans = centers ∧
            length centers = 9%nat.
Proof.
  pose proof (kmeans_clustering_cases ambient point_coords 9) as Hk.
  unfold detect_entrance_ways. simpl.
  destruct (decide _) as [Hle|Hgt].
  - destruct Hk as (km & Hfit & Hlen); [lia|]. rewrite Hfit.
    intros [= <- <-]. by exists km.
  - rewrite Hk by lia. done.
Qed.

(** C7, amended. For every flight, the token sequence holds one label per
    row of the flight's entrance segment as it comes from the table, not
    simplified, in order of decreasing distance remaining, each label
    being 'G' followed by the id of the corridor centre nearest to the
    row's point; a segment of fewer than two rows gets the single label
    'G-1'. *)
Theorem tokens_label_entrance_rows `{E : Externals} (ambient : RandomState)
    (kmeans : KMeans) (table : list Row) (flight_ids : list string)
    (max_flights : nat) :
  ∃ groups,
    entrance_groups ambient "k-means" (KMeansClassifier kmeans)
      (entrance_trajectories table flight_ids max_flights) = Ok groups ∧
    Forall2
      (λ fid tokens, ∃ rows,
         rows ≡ₚ filter (λ r, Flight_ID r = fid) table ∧
         Sorted further rows ∧
         tokens =
           if (1 <? length rows)%nat
           then (λ r, "G" +:+ pretty (closest (cluster_centers_ kmeans)
                                        (Latitude r, Longitude r)))
                  <$> rows
           else ["G-1"])
      (take max_flights flight_ids) (group_labels groups).
Proof.
  eexists. split.
  - unfold entrance_groups. simpl.
    apply (mapM_result_ok _
             (λ traj, if (1 <? length traj)%nat
                      then KMeans_predict kmeans traj else [-1])).
    intros traj _. by destruct (1 <? length traj)%nat.
  - unfold group_labels, entrance_trajectories.
    rewrite <- !list_fmap_compose. apply Forall2_fmap_r, Forall_Forall2_diag.
    apply Forall_forall. intros fid _.
    exists (merge_sort further (filter (λ r, Flight_ID r = fid) table)).
    split; [apply merge_sort_Permutation|].
    split; [apply Sorted_merge_sort, _|].
    simpl. rewrite length_fmap.
    destruct (1 <? _)%nat; [|done].
    unfold KMeans_predict. by rewrite <- !list_fmap_compose.
Qed.

(** ** Bucket reduction *)

Section bucket_reducer.
Implicit Types (b c : string) (l buckets : list string).

Lemma unique_elem_of b l : b ∈ unique l ↔ b ∈ l.
Proof.
  induction l as [|x l IH]; simpl; [done|].
  rewrite !elem_of_cons, list_elem_of_filter, IH.
  destruct (decide (b = x)); naive_solver.
Qed.

Lemma unique_NoDup l : NoDup (unique l).
Proof.
  induction l as [|x l IH]; simpl; [constructor|].
  constructor.
  - rewrite list_elem_of_filter. naive_solver.
  - by apply NoDup_filter.
Qed.

Lemma groupby_size_lookup b l :
  groupby_size l !! b =
    if decide (population b l = 0%nat) then None else Some (population b l).
Proof.
  unfold population.
  induction l as [|x l IH]; simpl; [done|].
  fold (groupby_size l). rewrite filter_cons.
  destruct (decide (x = b)) as [->|Hne].
  - rewrite lookup_insert_eq, IH. simpl.
    by destruct (decide (length (filter (λ c, c = b) l) = 0%nat)) as [->|].
  - by rewrite lookup_insert_ne.
Qed.

Lemma population_pos b l : b ∈ l ↔ (0 < population b l)%nat.
Proof.
  unfold population. induction l as [|x l IH]; simpl.
  - split; [by intros ?%elem_of_nil | lia].
  - rewrite elem_of_cons, filter_cons.
    destruct (decide (x = b)) as [->|]; simpl; [split; [lia|auto]|].
    rewrite IH. naive_solver.
Qed.

Lemma index_is_Some b l : b ∈ l → is_Some (index b l).
Proof.
  induction l as [|x l IH]; [by intros ?%elem_of_nil|].
  intros Hin. simpl. destruct (decide (b = x)); [by eexists|].
  apply elem_of_cons in Hin as [?|Hin]; [done|].
  destruct (IH Hin) as [i ->]. by eexists.
Qed.

Lemma index_lookup b l i :
  index b l = Some i ↔ l !! i = Some b ∧ ∀ j, (j < i)%nat → l !! j ≠ Some b.
Proof.
  revert i. induction l as [|x l IH]; intros i; simpl.
  - split; [done|]. by intros [? _].
  - destruct (decide (b = x)) as [->|Hne].
    + split.
      * intros [= <-]. split; [done|]. lia.
      * intros [Hi Hlt]. destruct i as [|i]; [done|].
        by destruct (Hlt 0%nat ltac:(lia)).
    + rewrite fmap_Some. split.
      * intros (k & Hk & ->). apply IH in Hk as [Hk1 Hk2]. split; [done|].
        intros [|j] ?; simpl; [congruence|]. apply Hk2. lia.
      * intros [Hi Hlt]. destruct i as [|i]; simpl in *; [congruence|].
        exists i. split; [|done]. apply IH. split; [done|].
        intros j ?. apply (Hlt (S j)). lia.
Qed.

Lemma index_lt b l i : index b l = Some i → (i < length l)%nat.
Proof. intros [H _]%index_lookup. by eapply lookup_lt_Some. Qed.

Lemma index_inj b c l i :
  index b l = Some i → index c l = Some i → b = c.
Proof. intros [H1 _]%index_lookup [H2 _]%index_lookup. congruence. Qed.

(** [convert_to_cluster_number] never raises on a key of the column. *)
Lemma convert_ok b buckets :
  b ∈ buckets →
  convert_to_cluster_number b (unique buckets) (groupby_size buckets) =
    Ok (label_of buckets b).
Proof.
  intros Hin. unfold convert_to_cluster_number, label_of.
  rewrite groupby_size_lookup.
  pose proof (proj1 (population_pos b buckets) Hin).
  destruct (decide _) as [|_]; [lia|].
  destruct (_ <=? 5)%nat; [done|].
  destruct (index_is_Some b (unique buckets)) as [i ->]; [|done].
  by apply unique_elem_of.
Qed.

Lemma cluster_labels_ok buckets :
  cluster_labels buckets = Ok (label_of buckets <$> buckets).
Proof.
  unfold cluster_labels. apply mapM_result_ok.
  intros b Hb. by apply convert_ok.
Qed.

Lemma index_filter_order (P : string → Prop) `{!∀ x, Decision (P x)}
    b c l ib ic :
  P b → P c → index b l = Some ib → index c l = Some ic →
  ∃ ib' ic', index b (filter P l) = Some ib' ∧
             index c (filter P l) = Some ic' ∧
             ((ib' < ic')%nat ↔ (ib < ic)%nat).
Proof.
  intros Pb Pc. revert ib ic.
  induction l as [|y l IH]; intros ib ic; simpl; [done|].
  destruct (decide (P y)) as [Py|Py].
  - rewrite filter_cons_True by done. simpl.
    destruct (decide (b = y)) as [->|Hb], (decide (c = y)) as [->|Hc].
    + intros [= <-] [= <-]. by exists 0%nat, 0%nat.
    + intros [= <-] (k & Hk & ->)%fmap_Some.
      destruct (index_is_Some c (filter P l)) as [k' Hk'].
      { apply list_elem_of_filter. split; [done|].
        apply index_lookup in Hk as [Hk _].
        by eapply list_elem_of_lookup_2. }
      exists 0%nat, (S k'). rewrite Hk'. repeat split; lia.
    + intros (k & Hk & ->)%fmap_Some [= <-].
      destruct (index_is_Some b (filter P l)) as [k' Hk'].
      { apply list_elem_of_filter. split; [done|].
        apply index_lookup in Hk as [Hk _].
        by eapply list_elem_of_lookup_2. }
      exists (S k'), 0%nat. rewrite Hk'. repeat split; lia.
    + intros (kb & Hkb & ->)%fmap_Some (kc & Hkc & ->)%fmap_Some.
      destruct (IH _ _ Hkb Hkc) as (ib' & ic' & -> & -> & Hiff).
      exists (S ib'), (S ic'). repeat split; lia.
  - rewrite filter_cons_False by done.
    destruct (decide (b = y)) as [->|Hb]; [done|].
    destruct (decide (c = y)) as [->|Hc]; [done|].
    intros (kb & Hkb & ->)%fmap_Some (kc & Hkc & ->)%fmap_Some.
    destruct (IH _ _ Hkb Hkc) as (ib' & ic' & -> & -> & Hiff).
    exists ib', ic'. repeat split; lia.
Qed.

(** [unique] lists the keys by first appearance in the column. *)
Lemma unique_order b c l ib ic :
  index b l = Some ib → index c l = Some ic →
  ∃ kb kc, index b (unique l) = Some kb ∧ index c (unique l) = Some kc ∧
           ((kb < kc)%nat ↔ (ib < ic)%nat).
Proof.
  revert ib ic. induction l as [|y l IH]; intros ib ic; simpl; [done|].
  destruct (decide (b = y)) as [->|Hb], (decide (c = y)) as [->|Hc].
  - intros [= <-] [= <-]. by exists 0%nat, 0%nat.
  - intros [= <-] (k & Hk & ->)%fmap_Some.
    destruct (index_is_Some c (filter (λ x, x ≠ y) (unique l))) as [k' Hk'].
    { apply list_elem_of_filter. split; [done|]. apply unique_elem_of.
      apply index_lookup in Hk as [Hk _]. by eapply list_elem_of_lookup_2. }
    exists 0%nat, (S k'). rewrite Hk'. repeat split; lia.
  - intros (k & Hk & ->)%fmap_Some [= <-].
    destruct (index_is_Some b (filter (λ x, x ≠ y) (unique l))) as [k' Hk'].
    { apply list_elem_of_filter. split; [done|]. apply unique_elem_of.
      apply index_lookup in Hk as [Hk _]. by eapply list_elem_of_lookup_2. }
    exists (S k'), 0%nat. rewrite Hk'. repeat split; lia.
  - intros (kb & Hkb & ->)%fmap_Some (kc & Hkc & ->)%fmap_Some.
    destruct (IH _ _ Hkb Hkc) as (ub & uc & Hub & Huc & Hiff).
    destruct (index_filter_order (λ x, x ≠ y) b c _ ub uc Hb Hc Hub Huc)
      as (fb & fc & -> & -> & Hiff').
    exists (S fb), (S fc). repeat split; lia.
Qed.

End bucket_reducer.

(** C3. A bucket whose population is at most the minimum (5) gives every
    one of its records the cluster id -1, whatever the bucket's index; a
    bucket of population 6 gives none of its records the id -1. *)
Theorem small_bucket_is_noise (buckets : list string) (i : nat) (b : string) :
  buckets !! i = Some b →
  ∃ labels c,
    cluster_labels buckets = Ok labels ∧ labels !! i = Some c ∧
    ((population b buckets ≤ 5)%nat → c = -1) ∧
    (population b buckets = 6%nat → c ≠ -1).
Proof.
  intros Hi. exists (label_of buckets <$> buckets), (label_of buckets b).
  split; [apply cluster_labels_ok|].
  split; [by rewrite list_lookup_fmap, Hi|].
  unfold label_of. split.
  - intros Hle. by rewrite (proj2 (Nat.leb_le _ _) Hle).
  - intros ->. simpl. lia.
Qed.

Lemma small_bucket_is_noise_witness :
  ∃ labels c,
    cluster_labels ["k"; "k"; "k"; "k"; "k"; "k"]%string = Ok labels ∧
    labels !! 2%nat = Some c ∧
    ((population "k" ["k"; "k"; "k"; "k"; "k"; "k"]%string ≤ 5)%nat → c = -1) ∧
    (population "k" ["k"; "k"; "k"; "k"; "k"; "k"]%string = 6%nat → c ≠ -1).
Proof.
  apply (small_bucket_is_noise ["k"; "k"; "k"; "k"; "k"; "k"]%string 2 "k").
  reflexivity.
Defined.

(** C2, as stated, fails: with one singleton bucket in front of a bucket of
    six, the only surviving bucket gets id 1, outside {0 .. K-1} = {0}. *)
Lemma cluster_ids_leave_gaps :
  ∃ labels,
    cluster_labels ["a"; "b"; "b"; "b"; "b"; "b"; "b"]%string = Ok labels ∧
    ¬ ids_fill_initial_segment
        ["a"; "b"; "b"; "b"; "b"; "b"; "b"]%string labels.
Proof.
  exists [-1; 1; 1; 1; 1; 1; 1]. split; [reflexivity|].
  intros Hfill. destruct (Hfill 1) as [Hlt _].
  assert (0 ≤ 1 < 1) as Habs; [|lia].
  apply Hlt. split; [lia|]. by exists 1%nat.
Qed.

(** C2, amended. Every record of every record list gets exactly one
    cluster id. The id of a record in a surviving bucket (population above
    5) is the position of its bucket key among ALL distinct keys of the
    column, taken in order of first appearance, surviving or not: two
    surviving records share an id exactly when they share a key, and ids
    grow with the first appearance of the key; the ids lie below the
    number of distinct keys and need not fill an initial segment. A record
    in any other bucket gets -1, which no surviving record gets. *)
Theorem cluster_ids_first_occurrence (buckets : list string) :
  ∃ labels,
    cluster_labels buckets = Ok labels ∧ length labels = length buckets ∧
    (∀ (i : nat) (b : string),
       buckets !! i = Some b →
       ∃ c, labels !! i = Some c ∧
            (c = -1 ↔ (population b buckets ≤ 5)%nat)) ∧
    ∀ (i j : nat) (bi bj : string),
      buckets !! i = Some bi → buckets !! j = Some bj →
      (5 < population bi buckets)%nat → (5 < population bj buckets)%nat →
      ∃ ki kj pi pj,
        index bi (unique buckets) = Some ki ∧
        index bj (unique buckets) = Some kj ∧
        labels !! i = Some (Z.of_nat ki) ∧ labels !! j = Some (Z.of_nat kj) ∧
        (ki < length (unique buckets))%nat ∧
        (ki = kj ↔ bi = bj) ∧
        index bi buckets = Some pi ∧ index bj buckets = Some pj ∧
        ((ki < kj)%nat ↔ (pi < pj)%nat).
Proof.
  exists (label_of buckets <$> buckets).
  split; [apply cluster_labels_ok|].
  split; [by rewrite length_fmap|].
  split.
  { intros i b Hi. exists (label_of buckets b).
    split; [by rewrite list_lookup_fmap, Hi|].
    unfold label_of. destruct (Nat.leb_spec (population b buckets) 5); lia. }
  intros i j bi bj Hi Hj Pi Pj.
  destruct (index_is_Some bi buckets) as [pi Hpi];
    [by eapply list_elem_of_lookup_2|].
  destruct (index_is_Some bj buckets) as [pj Hpj];
    [by eapply list_elem_of_lookup_2|].
  destruct (unique_order _ _ _ _ _ Hpi Hpj) as (ki & kj & Hki & Hkj & Hord).
  exists ki, kj, pi, pj.
  do 2 (split; [done|]).
  assert (∀ b k, (5 < population b buckets)%nat →
            index b (unique buckets) = Some k →
            label_of buckets b = Z.of_nat k) as Hlab.
  { intros b k Hp Hk. unfold label_of.
    rewrite (proj2 (Nat.leb_gt _ _) Hp), Hk. done. }
  split; [by rewrite list_lookup_fmap, Hi; simpl; erewrite Hlab|].
  split; [by rewrite list_lookup_fmap, Hj; simpl; erewrite Hlab|].
  split; [by eapply index_lt|].
  split; [|done].
  split; [intros ->; by eapply index_inj | intros ->; congruence].
Qed.

(** The theorem on a column of three buckets, for a record of the second
    and a record of the third, which both survive. *)
Lemma cluster_ids_first_occurrence_witness :
  let buckets := ["a"; "b"; "b"; "b"; "b"; "b"; "b";
                  "c"; "c"; "c"; "c"; "c"; "c"]%string in
  ∃ labels,
    cluster_labels buckets = Ok labels ∧ length labels = length buckets ∧
    ∃ ki kj pi pj,
      index "b" (unique buckets) = Some ki ∧
      index "c" (unique buckets) = Some kj ∧
      labels !! 1%nat = Some (Z.of_nat ki) ∧
      labels !! 7%nat = Some (Z.of_nat kj) ∧
      (ki < length (unique buckets))%nat ∧
      (ki = kj ↔ "b"%string = "c"%string) ∧
      index "b" buckets = Some pi ∧ index "c" buckets = Some pj ∧
      ((ki < kj)%nat ↔ (pi < pj)%nat).
Proof.
  intros buckets.
  destruct (cluster_ids_first_occurrence buckets)
    as (labels & Hok & Hlen & _ & Hsurv).
  exists labels. do 2 (split; [done|]).
  apply (Hsurv 1 7 "b" "c")%nat;
    [reflexivity | reflexivity | vm_compute; lia | vm_compute; lia].
Defined.

(** ** MinHash, LSH and the buckets they give *)

Section min_hash_lsh_props.
Context `{E : Externals}.
Implicit Types (lsh : LSHClusteringLib) (sig : list Z) (k : nat * list Z).
Implicit Types (tokens : list string) (rid : string).

Lemma foldr_min_spec (v : Z) (vs : list Z) :
  foldr Z.min v vs ∈ v :: vs ∧ ∀ x, x ∈ v :: vs → foldr Z.min v vs ≤ x.
Proof.
  induction vs as [|y vs [IHin IHle]]; simpl.
  - split; [constructor|]. intros x [->|[]%elem_of_nil]%elem_of_cons. lia.
  - split.
    + destruct (Z.min_spec y (foldr Z.min v vs)) as [[_ ->]|[_ ->]].
      * apply elem_of_cons. right. constructor.
      * apply elem_of_cons in IHin as [->|Hin]; [constructor|].
        do 2 (apply elem_of_cons; right). done.
    + intros x Hx.
      assert (x = y ∨ x ∈ v :: vs) as [->|Hx'].
      { rewrite !elem_of_cons in Hx. rewrite elem_of_cons. naive_solver. }
      * lia.
      * specialize (IHle x Hx'). lia.
Qed.

(** A signature entry depends on the set of tokens only. *)
Lemma min_hash_ext (h : string → Z) tokens1 tokens2 :
  (∀ x, x ∈ tokens1 ↔ x ∈ tokens2) →
  min_hash h tokens1 = min_hash h tokens2.
Proof.
  intros Hset. unfold min_hash.
  assert (∀ z, z ∈ h <$> tokens1 ↔ z ∈ h <$> tokens2) as Hvals.
  { intros z. rewrite !list_elem_of_fmap. naive_solver. }
  destruct (h <$> tokens1) as [|v1 vs1], (h <$> tokens2) as [|v2 vs2].
  - done.
  - exfalso. apply (proj1 (elem_of_nil v2)), Hvals. constructor.
  - exfalso. apply (proj1 (elem_of_nil v1)), Hvals. constructor.
  - destruct (foldr_min_spec v1 vs1) as [Hin1 Hle1].
    destruct (foldr_min_spec v2 vs2) as [Hin2 Hle2].
    apply Hvals in Hin1 as Hin1'. apply Hvals in Hin2 as Hin2'.
    specialize (Hle1 _ Hin2'). specialize (Hle2 _ Hin1'). lia.
Qed.

Lemma signature_ext n tokens1 tokens2 :
  (∀ x, x ∈ tokens1 ↔ x ∈ tokens2) →
  signature n tokens1 = signature n tokens2.
Proof.
  intros Hset. unfold signature. apply list_fmap_ext.
  intros _ i _. by apply min_hash_ext.
Qed.

(** What registering [rid] under the keys [ks] does to a table. *)
Lemma register_lookup rid (ks : list (nat * list Z))
    (tbl : gmap (nat * list Z) (gset string)) k x :
  x ∈ default ∅
        (foldr (λ k tbl, <[k := {[rid]} ∪ default ∅ (tbl !! k)]> tbl) tbl ks
           !! k)
  ↔ x ∈ default ∅ (tbl !! k) ∨ (x = rid ∧ k ∈ ks).
Proof.
  induction ks as [|k' ks IH]; simpl.
  - split; [by left|]. intros [?|[_ []%elem_of_nil]]. done.
  - destruct (decide (k' = k)) as [->|Hne].
    + rewrite lookup_insert_eq. simpl. rewrite elem_of_union, IH.
      rewrite elem_of_singleton, elem_of_cons. naive_solver.
    + rewrite lookup_insert_ne by done. rewrite IH, elem_of_cons.
      naive_solver.
Qed.

Lemma insert_record_lookup rid sig lsh k x :
  x ∈ default ∅ (hashtables (insert_record rid sig lsh) !! k)
  ↔ x ∈ default ∅ (hashtables lsh !! k) ∨ (x = rid ∧ k ∈ band_keys lsh sig).
Proof. apply register_lookup. Qed.

(** The index after all records have been inserted. *)
Lemma compute_lookup lsh (records : list (string * list string)) k x :
  let lsh' :=
    foldl (λ lsh r, insert_record r.1 (signature (num_perm lsh) r.2) lsh)
          lsh records in
  (bands lsh' = bands lsh ∧ rows lsh' = rows lsh
   ∧ num_perm lsh' = num_perm lsh) ∧
  (x ∈ default ∅ (hashtables lsh' !! k)
   ↔ x ∈ default ∅ (hashtables lsh !! k)
     ∨ ∃ r, r ∈ records ∧ x = r.1
            ∧ k ∈ band_keys lsh (signature (num_perm lsh) r.2)).
Proof.
  revert lsh. induction records as [|r records IH]; intros lsh; simpl.
  - split; [done|]. split; [by left|].
    intros [?|(r & []%elem_of_nil & _)]. done.
  - destruct (IH (insert_record r.1 (signature (num_perm lsh) r.2) lsh))
      as [Hsame Hiff].
    split; [done|]. rewrite Hiff, insert_record_lookup. simpl. split.
    + intros [[?|[-> ?]]|(r' & ? & -> & ?)]; [by left|right..].
      * exists r. split; [constructor|done].
      * exists r'. split; [by constructor|done].
    + intros [?|(r' & [->|?]%elem_of_cons & -> & ?)].
      * by left; left.
      * by left; right.
      * right. by exists r'.
Qed.

Lemma query_elem_of lsh sig x :
  x ∈ query lsh sig
  ↔ ∃ k, k ∈ band_keys lsh sig ∧ x ∈ default ∅ (hashtables lsh !! k).
Proof.
  unfold query. rewrite elem_of_union_list. split.
  - intros (X & (k & -> & Hk)%list_elem_of_fmap & Hx). by exists k.
  - intros (k & Hk & Hx). eexists. split; [|done].
    apply list_elem_of_fmap. by exists k.
Qed.

Lemma band_keys_nonempty lsh sig :
  (0 < bands lsh)%nat → ∃ k, k ∈ band_keys lsh sig.
Proof.
  intros Hb. unfold band_keys. destruct (bands lsh) as [|b]; [lia|].
  eexists. simpl. constructor.
Qed.

(** The [hash] and [buckets] columns, row by row. *)
Lemma bucket_keys_lookup (record_ids : list string)
    (data : list (list string)) p rid tokens :
  record_ids !! p = Some rid → data !! p = Some tokens →
  let lsh := new_LSHClusteringLib 0.6%Q 128 in
  let run := compute_min_hash_lsh_over_data lsh record_ids data in
  run.1 !! p = Some (signature 128 tokens) ∧
  bucket_keys record_ids data !! p =
    Some (String.concat "_"
            (query_duplicated_record run.2 (signature 128 tokens))) ∧
  ((0 < bands lsh)%nat →
   rid ∈ query_duplicated_record run.2 (signature 128 tokens)).
Proof.
  intros Hr Hd lsh run.
  assert (zip record_ids data !! p = Some (rid, tokens)) as Hz.
  { rewrite lookup_zip_with, Hr. simpl. by rewrite Hd. }
  assert (run.1 !! p = Some (signature 128 tokens)) as Hsig.
  { unfold run, compute_min_hash_lsh_over_data. simpl.
    by rewrite list_lookup_fmap, Hz. }
  split; [done|]. split.
  - unfold bucket_keys. fold lsh. fold run. destruct run as [hash lsh'].
    simpl in *. by rewrite !list_lookup_fmap, Hsig.
  - intros Hb. unfold query_duplicated_record. apply elem_of_elements.
    unfold run, compute_min_hash_lsh_over_data. simpl.
    destruct (compute_lookup lsh (zip record_ids data) (0%nat, []) rid)
      as [(Hbands & Hrows & Hperm) _].
    apply query_elem_of.
    destruct (band_keys_nonempty lsh (signature 128 tokens) Hb) as [k Hk].
    exists k.
    assert (∀ lsh1 lsh2, bands lsh1 = bands lsh2 → rows lsh1 = rows lsh2 →
              band_keys lsh1 (signature 128 tokens)
              = band_keys lsh2 (signature 128 tokens)) as Hkeys.
    { intros lsh1 lsh2 Hb12 Hr12. unfold band_keys. by rewrite Hb12, Hr12. }
    split; [by rewrite (Hkeys _ lsh)|].
    apply compute_lookup. right. exists (rid, tokens).
    split; [by eapply list_elem_of_lookup_2|done].
Qed.

Lemma filter_fmap_length {A B} (f : A → B) (P : B → Prop)
    `{!∀ y, Decision (P y)} (l : list A) :
  length (filter P (f <$> l)) = length (filter (λ x, P (f x)) l).
Proof.
  induction l as [|x l IH]; [done|].
  rewrite fmap_cons, !filter_cons. destruct (decide (P (f x))); simpl; by rewrite IH.
Qed.

Lemma positions_count (b : string) (l : list string) :
  length (filter (λ p, l !! p = Some b) (seq 0 (length l))) = population b l.
Proof.
  unfold population. induction l as [|x l IH]; [done|].
  cbn [length]. rewrite <- cons_seq, <- fmap_S_seq, !filter_cons.
  cbn [lookup list_lookup].
  destruct (decide (x = b)) as [->|Hne].
  - rewrite decide_True by done. cbn [length].
    by rewrite filter_fmap_length, <- IH.
  - rewrite decide_False by congruence.
    by rewrite filter_fmap_length, <- IH.
Qed.

(** Distinct rows that carry the key [b] are counted by its population. *)
Lemma population_positions (b : string) (l : list string) (ps : list nat) :
  NoDup ps → Forall (λ p, l !! p = Some b) ps →
  (length ps ≤ population b l)%nat.
Proof.
  intros Hnd Hps.
  rewrite <- positions_count. apply submseteq_length, NoDup_submseteq; [done|].
  intros p Hp. rewrite Forall_forall in Hps. specialize (Hps p Hp).
  apply list_elem_of_filter. split; [done|].
  apply elem_of_seq. apply lookup_lt_Some in Hps. lia.
Qed.

End min_hash_lsh_props.

(** C4. Records whose token sets are identical get identical signatures;
    the query of each returns every one of them; they get the same bucket
    key and the same cluster id; and that id is not -1 as soon as there
    are six of them. The rows [ps] are any distinct rows of the table
    whose token lists have the elements of [tokens]. *)
Theorem identical_token_sets_cluster_together `{E : Externals}
    (record_ids : list string) (data : list (list string))
    (ps : list nat) (tokens : list string) :
  (0 < (band_split 0.6%Q 128).1)%nat →
  NoDup ps →
  Forall (λ p, ∃ rid t, record_ids !! p = Some rid ∧ data !! p = Some t
                        ∧ ∀ x, x ∈ t ↔ x ∈ tokens) ps →
  let run := compute_min_hash_lsh_over_data
               (new_LSHClusteringLib 0.6%Q 128) record_ids data in
  ∃ sig key labels c,
    cluster_labels (bucket_keys record_ids data) = Ok labels ∧
    Forall (λ p, ∃ rid,
              record_ids !! p = Some rid ∧
              run.1 !! p = Some sig ∧
              rid ∈ query_duplicated_record run.2 sig ∧
              bucket_keys record_ids data !! p = Some key ∧
              labels !! p = Some c) ps ∧
    ((length ps ≤ 5)%nat ∨ c ≠ -1).
Proof.
  intros Hb Hnd Hps run.
  set (sig := signature 128 tokens).
  set (key := String.concat "_" (query_duplicated_record run.2 sig)).
  set (buckets := bucket_keys record_ids data).
  exists sig, key, (label_of buckets <$> buckets), (label_of buckets key).
  split; [apply cluster_labels_ok|].
  assert (Forall (λ p, buckets !! p = Some key) ps) as Hkeys.
  { eapply Forall_impl; [exact Hps|]. simpl.
    intros p (rid & t & Hr & Hd & Hset).
    destruct (bucket_keys_lookup _ _ _ _ _ Hr Hd) as (_ & Hkey & _).
    unfold buckets, key, sig. rewrite Hkey.
    by rewrite (signature_ext 128 t tokens). }
  split.
  - rewrite Forall_forall in Hps, Hkeys. apply Forall_forall. intros p Hp.
    destruct (Hps p Hp) as (rid & t & Hr & Hd & Hset).
    destruct (bucket_keys_lookup _ _ _ _ _ Hr Hd) as (Hsig & _ & Hq).
    exists rid. rewrite (signature_ext 128 t tokens) in Hsig, Hq by done.
    repeat split; [done|done|by apply Hq|by apply Hkeys|].
    by rewrite list_lookup_fmap, (Hkeys p Hp).
  - destruct (decide (length ps ≤ 5)%nat) as [|Hgt]; [by left|right].
    pose proof (population_positions key buckets ps Hnd Hkeys).
    unfold label_of. rewrite (proj2 (Nat.leb_gt _ _)) by lia. lia.
Qed.

Lemma identical_token_sets_cluster_together_witness :
  let record_ids : list string :=
    ["f1"; "f2"; "f3"; "f4"; "f5"; "f6"; "f7"] in
  let data : list (list string) :=
              [["G1"; "G2"; "G3"]; ["G1"; "G2"; "G3"]; ["G3"; "G2"; "G1"];
               ["G1"; "G1"; "G2"; "G3"]; ["G1"; "G2"; "G3"];
               ["G2"; "G3"; "G1"; "G3"]; ["G9"]] in
  let ps : list nat := [0; 1; 2; 3; 4; 5]%nat in
  let run := compute_min_hash_lsh_over_data (E := sample_externals)
               (new_LSHClusteringLib (E := sample_externals) 0.6%Q 128)
               record_ids data in
  ∃ sig key labels c,
    cluster_labels (bucket_keys (E := sample_externals) record_ids data)
      = Ok labels ∧
    Forall (λ p, ∃ rid,
              record_ids !! p = Some rid ∧
              run.1 !! p = Some sig ∧
              rid ∈ query_duplicated_record run.2 sig ∧
              bucket_keys (E := sample_externals) record_ids data !! p
                = Some key ∧
              labels !! p = Some c) ps ∧
    ((length ps ≤ 5)%nat ∨ c ≠ -1).
Proof.
  intros record_ids data ps.
  apply (identical_token_sets_cluster_together (E := sample_externals)
           record_ids data ps ["G1"; "G2"; "G3"]).
  - vm_compute. lia.
  - apply (bool_decide_unpack (NoDup ps)). vm_compute. exact I.
  - repeat (apply Forall_cons; split;
            [eexists _, _; split; [reflexivity|split; [reflexivity|]];
             intros x; rewrite !elem_of_cons; rewrite !elem_of_nil; tauto|]).
    constructor.
Defined.

(** ** Evaluation *)

Section silhouette.
Implicit Types (X : list (list Q)) (labels : list Z) (l : list Q).

Lemma Qsum_nonneg l : Forall (λ x, (0 <= x)%Q) l → (0 <= Qsum l)%Q.
Proof.
  induction 1 as [|x l Hx _ IH]; simpl; [apply Qle_refl|]. lra.
Qed.

Lemma Qsum_bounds l :
  Forall (λ x, (-1 <= x ∧ x <= 1)%Q) l →
  (- Qcount (length l) <= Qsum l ∧ Qsum l <= Qcount (length l))%Q.
Proof.
  unfold Qcount. induction 1 as [|x l [Hlo Hhi] _ [IHlo IHhi]].
  - split; by compute.
  - cbn [length Qsum foldr]. fold (Qsum l).
    rewrite Nat2Z.inj_succ, <- Z.add_1_r, inject_Z_plus.
    change (inject_Z 1) with 1%Q.
    revert IHlo IHhi. generalize (inject_Z (Z.of_nat (length l))) (Qsum l).
    intros n s ? ?. lra.
Qed.

Lemma Qdiv_nonneg (a b : Q) : (0 <= a)%Q → (0 <= b)%Q → (0 <= a / b)%Q.
Proof.
  intros Ha Hb. unfold Qdiv. apply Qmult_le_0_compat; [done|].
  by apply Qinv_le_0_compat.
Qed.

Lemma Qcount_nonneg (n : nat) : (0 <= Qcount n)%Q.
Proof.
  unfold Qcount. change 0%Q with (inject_Z 0). rewrite <- Zle_Qle. lia.
Qed.

Lemma Qcount_pos (n : nat) : (0 < n)%nat → (0 < Qcount n)%Q.
Proof.
  intros Hn. unfold Qcount. change 0%Q with (inject_Z 0).
  rewrite <- Zlt_Qlt. lia.
Qed.

Lemma Qminimum_nonneg l : Forall (λ x, (0 <= x)%Q) l → (0 <= Qminimum l)%Q.
Proof.
  destruct 1 as [|x l Hx Hl]; simpl; [apply Qle_refl|].
  induction Hl as [|y l Hy _ IH]; simpl; [done|].
  by apply Q.min_glb.
Qed.

Lemma entry_nonneg X i j :
  forallb (forallb (Qle_bool 0)) X = true → (0 <= entry X i j)%Q.
Proof.
  intros HX. unfold entry.
  destruct (X !! i) as [row|] eqn:Hrow; simpl; [|apply Qle_refl].
  destruct (row !! j) as [d|] eqn:Hd; simpl; [|apply Qle_refl].
  rewrite forallb_forall in HX.
  apply list_elem_of_lookup_2, list_elem_of_In, HX in Hrow.
  rewrite forallb_forall in Hrow. apply Qle_bool_iff, Hrow.
  by eapply list_elem_of_In, list_elem_of_lookup_2.
Qed.

Lemma dist_to_cluster_nonneg X labels i c :
  forallb (forallb (Qle_bool 0)) X = true →
  (0 <= dist_to_cluster X labels i c)%Q.
Proof.
  intros HX. apply Qsum_nonneg, Forall_fmap, Forall_forall.
  intros j _. by apply entry_nonneg.
Qed.

(** The quotient [(b - a) / max(a, b)] of two non-negative means. *)
Lemma contrast_bounds (a b : Q) :
  (0 <= a)%Q → (0 <= b)%Q → Qeq_bool (Qmax a b) 0 = false →
  (-1 <= (b - a) / Qmax a b ∧ (b - a) / Qmax a b <= 1)%Q.
Proof.
  intros Ha Hb Htop.
  assert (¬ (Qmax a b == 0)%Q) as Hne.
  { intros Heq. apply Qeq_bool_iff in Heq. congruence. }
  pose proof (Q.le_max_l a b). pose proof (Q.le_max_r a b).
  assert (0 < Qmax a b)%Q as Hpos.
  { destruct (Qlt_le_dec 0 (Qmax a b)) as [|Hle]; [done|].
    exfalso. apply Hne. apply Qle_antisym; [done|lra]. }
  split.
  - apply Qle_shift_div_l; [done|]. lra.
  - apply Qle_shift_div_r; [done|]. lra.
Qed.

Lemma silhouette_sample_bounds X labels i :
  forallb (forallb (Qle_bool 0)) X = true →
  (-1 <= silhouette_sample X labels i
   ∧ silhouette_sample X labels i <= 1)%Q.
Proof.
  intros HX. unfold silhouette_sample.
  destruct (_ =? 1)%nat; [lra|].
  match goal with |- context [Qeq_bool ?t 0] =>
    destruct (Qeq_bool t 0) eqn:Htop end; [lra|].
  apply contrast_bounds; [| |done].
  - apply Qdiv_nonneg; [by apply dist_to_cluster_nonneg|apply Qcount_nonneg].
  - apply Qminimum_nonneg, Forall_fmap, Forall_forall. intros c _. simpl.
    apply Qdiv_nonneg; [by apply dist_to_cluster_nonneg|apply Qcount_nonneg].
Qed.

(** A diagonal of zeros is within the tolerance of the library. *)
Lemma zero_diagonal_accepted X (n : nat) :
  forallb (λ i, Qeq_bool (entry X i i) 0) (seq 0 n) = true →
  forallb (λ i, Qle_bool (Qabs (entry X i i)) diagonal_atol) (seq 0 n) = true.
Proof.
  rewrite !forallb_forall. intros Hdiag i Hi.
  apply Hdiag, Qeq_bool_iff in Hi. apply Qle_bool_iff.
  rewrite Hi. by compute.
Qed.

End silhouette.

(** C5, as stated, fails: one noise record and a single cluster of six
    leave one distinct label among the non-noise records, yet the
    evaluation returns a score instead of failing. *)
Lemma silhouette_with_one_cluster_and_noise :
  let labels := [-1; 1; 1; 1; 1; 1; 1] in
  let X := [[0; 2; 2; 2; 2; 2; 2]; [2; 0; 1; 1; 1; 1; 1];
            [2; 1; 0; 1; 1; 1; 1]; [2; 1; 1; 0; 1; 1; 1];
            [2; 1; 1; 1; 0; 1; 1]; [2; 1; 1; 1; 1; 0; 1];
            [2; 1; 1; 1; 1; 1; 0]]%Q in
  cluster_labels ["a"; "b"; "b"; "b"; "b"; "b"; "b"] = Ok labels ∧
  valid_distance_matrix 7 X = true ∧
  n_distinct (non_noise labels) = 1%nat ∧
  ∃ s, compute_silhouette_score X labels = Ok s ∧ (s == 3 # 7)%Q.
Proof.
  repeat split; [reflexivity..|].
  eexists. split; [vm_compute; reflexivity|reflexivity].
Qed.

(** C5, amended. Silhouette evaluation hands the whole labeling to the
    library, the noise label -1 counting as a label like any other. Given
    a valid distance matrix, it returns a score in [-1, 1] when the
    number of distinct labels, -1 included, is at least two and less than
    the number of records, and raises [ValueError] otherwise. *)
Theorem silhouette_counts_every_label (X : list (list Q)) (labels : list Z) :
  valid_distance_matrix (length labels) X = true →
  if (1 <? n_distinct labels)%nat && (n_distinct labels <? length labels)%nat
  then ∃ s, compute_silhouette_score X labels = Ok s ∧
            (-1 <= s ∧ s <= 1)%Q
  else compute_silhouette_score X labels = Raise ValueError.
Proof.
  unfold valid_distance_matrix. rewrite !andb_true_iff.
  intros [[[Hsq Hpos] Hdiag] _].
  unfold compute_silhouette_score, silhouette_score.
  rewrite Hsq, (zero_diagonal_accepted _ _ Hdiag), Hpos. simpl.
  destruct (_ && _) eqn:Hn; simpl; [|done].
  eexists. split; [done|].
  apply andb_true_iff in Hn as [H1%Nat.ltb_lt H2%Nat.ltb_lt].
  assert (0 < Qcount (length labels))%Q as Hcount by (apply Qcount_pos; lia).
  destruct (Qsum_bounds (silhouette_sample X labels <$> seq 0 (length labels)))
    as [Hlo Hhi].
  { apply Forall_fmap, Forall_forall. intros i _.
    by apply silhouette_sample_bounds. }
  rewrite length_fmap, length_seq in Hlo, Hhi. split.
  - apply Qle_shift_div_l; [done|]. lra.
  - apply Qle_shift_div_r; [done|]. lra.
Qed.

Lemma silhouette_counts_every_label_witness :
  ∃ s, compute_silhouette_score
         [[0; 1; 2]; [1; 0; 1]; [2; 1; 0]]%Q [-1; 0; 0] = Ok s ∧
       (-1 <= s ∧ s <= 1)%Q.
Proof.
  apply (silhouette_counts_every_label
           [[0; 1; 2]; [1; 0; 1]; [2; 1; 0]]%Q [-1; 0; 0]).
  reflexivity.
Defined.

(** ** More on the error monad *)

Lemma mapM_result_Forall2 {A B} (f : A → result B) (l : list A)
    (ys : list B) :
  mapM f l = Ok ys → Forall2 (λ x y, f x = Ok y) l ys.
Proof.
  revert ys. induction l as [|x l IH]; intros ys; simpl.
  - intros [= <-]. constructor.
  - destruct (f x) as [y|] eqn:Hx; simpl; [|done].
    destruct (mapM f l) as [ys'|]; simpl; [|done].
    intros [= <-]. constructor; [done|]. by apply IH.
Qed.

Lemma mapM_result_raises {A B} (f : A → result B) (l : list A) (x : A) :
  x ∈ l → raises (f x) = true → raises (mapM f l) = true.
Proof.
  induction l as [|y l IH]; [by intros ?%elem_of_nil|].
  intros [->|Hin]%elem_of_cons Hx; simpl.
  - by destruct (f y).
  - destruct (f y); simpl; [|done].
    specialize (IH Hin Hx). by destruct (mapM f l).
Qed.

(** ** More on corridor detection *)

Section corridor_extras.
Context `{E : Externals}.

Lemma min_by_spec (key : Point → Q) (cluster : list Point) (p : Point) :
  min_by key cluster = Some p →
  ∃ i, cluster !! i = Some p ∧
       (∀ q, q ∈ cluster → (key p <= key q)%Q) ∧
       (∀ j q, (j < i)%nat → cluster !! j = Some q → (key p < key q)%Q).
Proof.
  revert p. induction cluster as [|x cluster IH]; intros p; simpl; [done|].
  destruct (min_by key cluster) as [q|] eqn:Hq.
  - destruct (IH q eq_refl) as (i & Hi & Hle & Hlt).
    destruct (Qle_bool (key x) (key q)) eqn:Hcmp; intros [= <-].
    + apply Qle_bool_iff in Hcmp. exists 0%nat. split; [done|]. split.
      * intros r [->|Hr]%elem_of_cons; [apply Qle_refl|].
        eapply Qle_trans; [done|by apply Hle].
      * intros j r Hj. lia.
    + apply Qle_bool_false in Hcmp. exists (S i). split; [done|]. split.
      * intros r [->|Hr]%elem_of_cons; [by apply Qlt_le_weak|by apply Hle].
      * intros [|j] r Hj; simpl; [by intros [= <-]|]. apply Hlt. lia.
  - intros [= <-]. destruct cluster as [|y cluster].
    + exists 0%nat. split; [done|]. split.
      * intros r [->|Hr%elem_of_nil]%elem_of_cons; [apply Qle_refl|done].
      * intros j r Hj. lia.
    + simpl in Hq. destruct (min_by key cluster); [|done].
      by destruct (Qle_bool _ _).
Qed.

Lemma min_by_None (key : Point → Q) (cluster : list Point) :
  min_by key cluster = None → cluster = [].
Proof.
  destruct cluster as [|x cluster]; [done|]. simpl.
  destruct (min_by key cluster); [|done]. by destruct (Qle_bool _ _).
Qed.

Lemma get_centermost_point_elem (cluster : list Point) (p : Point) :
  get_centermost_point cluster = Ok p → p ∈ cluster.
Proof.
  unfold get_centermost_point.
  destruct (min_by _ cluster) as [q|] eqn:Hq; [|done].
  intros [= <-]. apply min_by_spec in Hq as (i & Hi & _).
  by eapply list_elem_of_lookup_2.
Qed.

Lemma rows_labelled_elem (coords : list Point) (labels : list Z) (n : Z)
    (p : Point) :
  p ∈ rows_labelled coords labels n
  ↔ ∃ i, coords !! i = Some p ∧ labels !! i = Some n.
Proof.
  unfold rows_labelled. rewrite list_elem_of_fmap. split.
  - intros ([q l] & -> & [Hl Hin]%list_elem_of_filter). simpl in *. subst l.
    apply list_elem_of_lookup in Hin as [i Hi].
    apply lookup_zip_with_Some in Hi as (x & y & [= <- <-] & Hx & Hy).
    by exists i.
  - intros (i & Hp & Hn). exists (p, n). split; [done|].
    apply list_elem_of_filter. split; [done|].
    apply list_elem_of_lookup. exists i.
    apply lookup_zip_with_Some. by exists p, n.
Qed.

End corridor_extras.

(** X1. On a non-empty cluster [get_centermost_point] returns a point of
    the cluster that is nearest to the cluster's centroid (the mean of
    the coordinates), and the earliest such point. *)
Theorem centermost_point_is_nearest_member `{E : Externals}
    (cluster : list Point) :
  cluster ≠ [] →
  let n := inject_Z (Z.of_nat (length cluster)) in
  let centroid := ((Qsum (fst <$> cluster) / n)%Q,
                   (Qsum (snd <$> cluster) / n)%Q) in
  ∃ p i,
    get_centermost_point cluster = Ok p ∧ cluster !! i = Some p ∧
    (∀ q, q ∈ cluster →
          (great_circle_m p centroid <= great_circle_m q centroid)%Q) ∧
    (∀ j q, (j < i)%nat → cluster !! j = Some q →
            (great_circle_m p centroid < great_circle_m q centroid)%Q).
Proof.
  intros Hne n centroid. unfold get_centermost_point. fold n. fold centroid.
  destruct (min_by _ cluster) as [p|] eqn:Hp.
  - apply min_by_spec in Hp as (i & Hi & Hle & Hlt). by exists p, i.
  - by apply min_by_None in Hp.
Qed.

Lemma centermost_point_is_nearest_member_witness :
  let cluster := [(0, 0); (4, 0); (2, 1)]%Q in
  let n := inject_Z (Z.of_nat (length cluster)) in
  let centroid := ((Qsum (fst <$> cluster) / n)%Q,
                   (Qsum (snd <$> cluster) / n)%Q) in
  ∃ p i,
    get_centermost_point (E := sample_externals) cluster = Ok p ∧
    cluster !! i = Some p ∧
    (∀ q, q ∈ cluster →
          (great_circle_m (Externals := sample_externals) p centroid
           <= great_circle_m (Externals := sample_externals) q centroid)%Q) ∧
    (∀ j q, (j < i)%nat → cluster !! j = Some q →
            (great_circle_m (Externals := sample_externals) p centroid
             < great_circle_m (Externals := sample_externals) q centroid)%Q).
Proof.
  apply (centermost_point_is_nearest_member (E := sample_externals)
           [(0, 0); (4, 0); (2, 1)]%Q).
  discriminate.
Defined.

Section dbscan_extras.
Context `{E : Externals}.

(** The radius [dbscan_clustering] fits with. *)
Lemma dbscan_clustering_unfold (coords : list Point) (min_sample : nat)
    (max_distance : Q) (epsilon : option Q) :
  let radius := if negb (truthy epsilon)
                then (max_distance / KM_PER_RADIAN)%Q
                else default 0%Q epsilon in
  dbscan_clustering coords min_sample max_distance epsilon =
    (labels ← dbscan_fit radius min_sample
                ((λ p, (radians p.1, radians p.2)) <$> coords);
     centers ← mapM get_centermost_point
       ((λ n, rows_labelled coords labels (Z.of_nat n))
          <$> seq 0 (n_distinct labels));
     Ok (centers,
         {| eps := radius; min_samples := min_sample; labels_ := labels |})).
Proof.
  intros radius. unfold dbscan_clustering, DBSCAN_fit. fold radius.
  by destruct (dbscan_fit _ _ _).
Qed.

(** What a successful [dbscan_clustering] returns. *)
Lemma dbscan_clustering_Ok (coords : list Point) (min_sample : nat)
    (max_distance : Q) (epsilon : option Q) (centers : list Point)
    (db : DBSCAN) :
  dbscan_clustering coords min_sample max_distance epsilon = Ok (centers, db) →
  eps db = (if negb (truthy epsilon) then (max_distance / KM_PER_RADIAN)%Q
            else default 0%Q epsilon) ∧
  min_samples db = min_sample ∧
  length (labels_ db) = length coords ∧
  length centers = n_distinct (labels_ db) ∧
  ∀ n c, centers !! n = Some c →
         ∃ i, coords !! i = Some c ∧ labels_ db !! i = Some (Z.of_nat n).
Proof.
  rewrite dbscan_clustering_unfold.
  destruct (dbscan_fit _ _ _) as [labels|] eqn:Hfit; simpl; [|done].
  destruct (mapM _ _) as [cs|] eqn:Hcs; simpl; [|done].
  intros [= <- <-]. simpl.
  apply dbscan_fit_length in Hfit. rewrite length_fmap in Hfit.
  apply mapM_result_Forall2 in Hcs.
  split; [done|]. split; [done|]. split; [done|]. split.
  - apply Forall2_length in Hcs. by rewrite length_fmap, length_seq in Hcs.
  - intros n c Hc.
    destruct (Forall2_lookup_r _ _ _ _ _ Hcs Hc) as (cl & Hcl & Hget).
    rewrite list_lookup_fmap in Hcl.
    destruct (seq 0 (n_distinct labels) !! n) as [m|] eqn:Hm; [|done].
    apply lookup_seq in Hm as [-> _]. simpl in Hcl. injection Hcl as <-.
    by apply get_centermost_point_elem, rows_labelled_elem in Hget.
Qed.

(** Among [num] distinct labels of which one lies outside [0 .. num-1],
    some number below [num] is missing. *)
Lemma label_gap (labels : list Z) (l : Z) :
  l ∈ labels → (l < 0 ∨ Z.of_nat (n_distinct labels) ≤ l) →
  ∃ n, (n < n_distinct labels)%nat ∧ Z.of_nat n ∉ labels.
Proof.
  intros Hl Hout. unfold n_distinct in *.
  set (num := length (remove_dups labels)) in *.
  destruct (decide (Forall (λ n, Z.of_nat n ∈ labels) (seq 0 num)))
    as [Hall|Hsome].
  - exfalso.
    assert (l :: (Z.of_nat <$> seq 0 num) ⊆+ remove_dups labels) as Hsub.
    { apply NoDup_submseteq.
      - constructor.
        + intros (n & -> & Hn%elem_of_seq)%list_elem_of_fmap. lia.
        + apply NoDup_fmap; [apply _|apply NoDup_seq].
      - intros x [->|(n & -> & Hn)%list_elem_of_fmap]%elem_of_cons;
          apply elem_of_remove_dups; [done|].
        rewrite Forall_forall in Hall. by apply Hall. }
    apply submseteq_length in Hsub. simpl in Hsub.
    rewrite length_fmap, length_seq in Hsub. unfold num in Hsub. lia.
  - apply not_Forall_Exists in Hsome; [|apply _].
    apply Exists_exists in Hsome as (n & Hn%elem_of_seq & Hnot).
    exists n. split; [lia|done].
Qed.

End dbscan_extras.

(** X2. When [dbscan_clustering] succeeds it returns one centre per
    distinct label, the estimator carries the [min_sample] it was given
    and one label per input point, and the centre in position [n] is an
    input point that DBSCAN labelled [n]. *)
Theorem dbscan_centers_are_labelled_points `{E : Externals}
    (coords : list Point) (min_sample : nat) (max_distance : Q)
    (epsilon : option Q) (centers : list Point) (db : DBSCAN) :
  dbscan_clustering coords min_sample max_distance epsilon = Ok (centers, db) →
  min_samples db = min_sample ∧
  length (labels_ db) = length coords ∧
  length centers = n_distinct (labels_ db) ∧
  ∀ n c, centers !! n = Some c →
         ∃ i, coords !! i = Some c ∧ labels_ db !! i = Some (Z.of_nat n).
Proof. intros Hrun. by apply dbscan_clustering_Ok in Hrun as (_ & ?). Qed.

Lemma dbscan_centers_are_labelled_points_witness :
  let coords := [(1.35, 103.99); (1.36, 104.02)]%Q in
  let db := {| eps := 3000000 # 637100880; min_samples := 1;
               labels_ := [0; 1] |} in
  min_samples db = 1%nat ∧
  length (labels_ db) = length coords ∧
  length coords = n_distinct (labels_ db) ∧
  ∀ n c, coords !! n = Some c →
         ∃ i, coords !! i = Some c ∧ labels_ db !! i = Some (Z.of_nat n).
Proof.
  apply (dbscan_centers_are_labelled_points (E := isolating_externals)
           [(1.35, 103.99); (1.36, 104.02)]%Q 1 30.0%Q None
           [(1.35, 103.99); (1.36, 104.02)]%Q).
  reflexivity.
Defined.

(** X3. [dbscan_clustering] raises whenever DBSCAN gives some point a
    label outside [0 .. num_clusters - 1], where [num_clusters] is the
    number of distinct labels: the noise label -1 is such a label. One of
    the clusters built from [range(num_clusters)] is then empty, and
    [get_centermost_point] has no minimum to take. *)
Theorem dbscan_clustering_raises_on_noise `{E : Externals}
    (coords : list Point) (min_sample : nat) (max_distance : Q)
    (epsilon : option Q) (labels : list Z) (l : Z) :
  dbscan_fit (if negb (truthy epsilon) then (max_distance / KM_PER_RADIAN)%Q
              else default 0%Q epsilon)
             min_sample ((λ p, (radians p.1, radians p.2)) <$> coords)
    = Ok labels →
  l ∈ labels → (l < 0 ∨ Z.of_nat (n_distinct labels) ≤ l) →
  raises (dbscan_clustering coords min_sample max_distance epsilon) = true.
Proof.
  intros Hfit Hl Hout. rewrite dbscan_clustering_unfold. rewrite Hfit. simpl.
  destruct (label_gap labels l Hl Hout) as (n & Hn & Hmissing).
  assert (raises (mapM get_centermost_point
            ((λ n, rows_labelled coords labels (Z.of_nat n))
               <$> seq 0 (n_distinct labels))) = true) as Hraise.
  { apply (mapM_result_raises _ _ (rows_labelled coords labels (Z.of_nat n))).
    - apply list_elem_of_fmap. exists n. split; [done|].
      apply elem_of_seq. lia.
    - assert (rows_labelled coords labels (Z.of_nat n) = []) as ->; [|done].
      destruct (rows_labelled coords labels (Z.of_nat n)) as [|p r] eqn:Hr;
        [done|].
      exfalso. assert (p ∈ rows_labelled coords labels (Z.of_nat n)) as Hp
        by (rewrite Hr; constructor).
      apply rows_labelled_elem in Hp as (i & _ & Hi).
      apply Hmissing. by eapply list_elem_of_lookup_2. }
  by destruct (mapM _ _).
Qed.

Lemma dbscan_clustering_raises_on_noise_witness :
  raises (dbscan_clustering (E := isolating_externals)
            [(1.35, 103.99); (1.36, 104.02)]%Q 2 30.0%Q None) = true.
Proof.
  apply (dbscan_clustering_raises_on_noise (E := isolating_externals)
           [(1.35, 103.99); (1.36, 104.02)]%Q 2 30.0%Q None [-1; -1] (-1)).
  - reflexivity.
  - constructor.
  - left. lia.
Defined.

(** X4. A non-zero [epsilon] is the radius DBSCAN is fitted with, and
    [max_distance] then plays no part in the result. *)
Theorem dbscan_epsilon_overrides_max_distance `{E : Externals}
    (coords : list Point) (min_sample : nat) (max_distance max_distance' : Q)
    (e : Q) :
  ¬ (e == 0)%Q →
  dbscan_clustering coords min_sample max_distance (Some e)
    = dbscan_clustering coords min_sample max_distance' (Some e) ∧
  match dbscan_clustering coords min_sample max_distance (Some e) with
  | Ok (_, db) => eps db = e
  | Raise _ => True
  end.
Proof.
  intros He.
  assert (Qeq_bool e 0 = false) as Hb.
  { apply not_true_iff_false. by rewrite Qeq_bool_iff. }
  rewrite !dbscan_clustering_unfold. simpl. rewrite Hb. simpl.
  split; [done|].
  destruct (dbscan_fit _ _ _); simpl; [|done]. by destruct (mapM _ _).
Qed.

Lemma dbscan_epsilon_overrides_max_distance_witness :
  dbscan_clustering (E := sample_externals) [(1.35, 103.99)]%Q 1 30.0%Q
    (Some 0.005%Q)
  = dbscan_clustering (E := sample_externals) [(1.35, 103.99)]%Q 1 1.0%Q
      (Some 0.005%Q) ∧
  match dbscan_clustering (E := sample_externals) [(1.35, 103.99)]%Q 1 30.0%Q
          (Some 0.005%Q) with
  | Ok (_, db) => eps db = 0.005%Q
  | Raise _ => True
  end.
Proof.
  apply (dbscan_epsilon_overrides_max_distance (E := sample_externals)).
  discriminate.
Defined.

(** X6. With the selector ['dbscan'], a successful [detect_entrance_ways]
    returns a DBSCAN estimator fitted with [min_samples = 1] and the
    radius [30 / KM_PER_RADIAN], and every corridor centre it returns is
    a point of the pool. *)
Theorem detect_dbscan_centers_in_pool `{E : Externals}
    (ambient : RandomState) (point_coords centers : list Point)
    (classifier : Classifier) :
  detect_entrance_ways ambient point_coords "dbscan"
    = Ok (centers, classifier) →
  ∃ db, classifier = DBSCANClassifier db ∧
        eps db = (30.0 / KM_PER_RADIAN)%Q ∧ min_samples db = 1%nat ∧
        length centers = n_distinct (labels_ db) ∧
        Forall (λ c, c ∈ point_coords) centers.
Proof.
  unfold detect_entrance_ways. simpl.
  destruct (dbscan_clustering point_coords 1 30.0%Q None)
    as [[cs db]|] eqn:Hrun; simpl; [|done].
  intros [= <- <-]. exists db.
  apply dbscan_clustering_Ok in Hrun as (Heps & Hmin & _ & Hlen & Hc).
  repeat split; [done..|].
  apply Forall_forall. intros c [n Hn]%list_elem_of_lookup.
  destruct (Hc n c Hn) as (i & Hi & _). by eapply list_elem_of_lookup_2.
Qed.

Lemma detect_dbscan_centers_in_pool_witness :
  ∃ db, DBSCANClassifier {| eps := 3000000 # 637100880; min_samples := 1;
                            labels_ := [0; 1] |} = DBSCANClassifier db ∧
        eps db = (30.0 / KM_PER_RADIAN (Externals := isolating_externals))%Q ∧
        min_samples db = 1%nat ∧
        length [(1.35, 103.99); (1.36, 104.02)]%Q = n_distinct (labels_ db) ∧
        Forall (λ c, c ∈ [(1.35, 103.99); (1.36, 104.02)]%Q)
               [(1.35, 103.99); (1.36, 104.02)]%Q.
Proof.
  apply (detect_dbscan_centers_in_pool (E := isolating_externals) 0
           [(1.35, 103.99); (1.36, 104.02)]%Q).
  reflexivity.
Defined.

(** ** More on tokenization *)

Section tokenizer_extras.
Context `{E : Externals}.

Lemma argmin_from_bounds (i : nat) (ds : list Q) (j : nat) (d : Q) :
  argmin_from i ds = Some (j, d) → (i ≤ j < i + length ds)%nat.
Proof.
  revert i j d. induction ds as [|x ds IH]; intros i j d; simpl; [done|].
  destruct (argmin_from (S i) ds) as [[k d']|] eqn:Hk.
  - apply IH in Hk. destruct (Qle_bool x d'); intros [= <- <-]; lia.
  - intros [= <- <-]. lia.
Qed.

Lemma closest_bounds (centers : list Point) (p : Point) :
  centers ≠ [] → 0 ≤ closest centers p < Z.of_nat (length centers).
Proof.
  intros Hne. unfold closest.
  destruct (argmin_from 0 _) as [[j d]|] eqn:Hj.
  - apply argmin_from_bounds in Hj. rewrite length_fmap in Hj. lia.
  - destruct centers; [done|]. simpl. lia.
Qed.

End tokenizer_extras.

(** X7. With a k-means classifier that holds at least one centre, the
    tokenizer never raises: every trajectory gets a non-empty list of
    corridor ids, each either the sentinel -1 or the position of a centre,
    so at most [number of centres + 1] different labels can occur. *)
Theorem kmeans_tokens_are_centre_ids `{E : Externals}
    (ambient : RandomState) (kmeans : KMeans)
    (trajectories : list (list Point)) :
  cluster_centers_ kmeans ≠ [] →
  ∃ groups,
    entrance_groups ambient "k-means" (KMeansClassifier kmeans) trajectories
      = Ok groups ∧
    length groups = length trajectories ∧
    Forall (λ g, g ≠ [] ∧
                 Forall (λ c, -1 ≤ c
                              < Z.of_nat (length (cluster_centers_ kmeans)))
                        g) groups.
Proof.
  intros Hne. eexists. split.
  - unfold entrance_groups. simpl.
    apply (mapM_result_ok _
             (λ traj, if (1 <? length traj)%nat
                      then KMeans_predict kmeans traj else [-1])).
    intros traj _. by destruct (1 <? length traj)%nat.
  - split; [by rewrite length_fmap|].
    apply Forall_fmap, Forall_forall. intros traj _. simpl.
    destruct (1 <? length traj)%nat eqn:Hlen.
    + apply Nat.ltb_lt in Hlen. split.
      * destruct traj; [simpl in Hlen; lia|done].
      * unfold KMeans_predict. apply Forall_fmap, Forall_forall.
        intros p _. simpl. pose proof (closest_bounds _ p Hne). lia.
    + split; [done|]. repeat constructor; lia.
Qed.

Lemma kmeans_tokens_are_centre_ids_witness :
  let kmeans := {| n_clusters := 2; random_state := Some 0;
                   cluster_centers_ := [(0, 0); (5, 5)]%Q |} in
  ∃ groups,
    entrance_groups (E := sample_externals) 0 "k-means"
      (KMeansClassifier kmeans) [[(0, 1); (4, 4)]%Q; []] = Ok groups ∧
    length groups = length [[(0, 1); (4, 4)]%Q; []] ∧
    Forall (λ g, g ≠ [] ∧
                 Forall (λ c, -1 ≤ c
                              < Z.of_nat (length (cluster_centers_ kmeans)))
                        g) groups.
Proof.
  intros kmeans.
  apply (kmeans_tokens_are_centre_ids (E := sample_externals) 0 kmeans).
  discriminate.
Defined.

(** ** More on bucket reduction *)

Lemma index_None (b : string) (l : list string) : index b l = None → b ∉ l.
Proof.
  intros Hnone Hin. destruct (index_is_Some b l Hin) as [i Hi]. congruence.
Qed.

(** X8. The four outcomes of [convert_to_cluster_number] on any label,
    list and dictionary: [KeyError] exactly when the label is not a key of
    the dictionary; -1 when its count is at most 5, without the list being
    looked at; [ValueError] when its count exceeds 5 and the list does not
    hold it; otherwise the first position of the label in the list. *)
Theorem convert_to_cluster_number_outcomes (bucket_label : string)
    (unique_buckets : list string) (n_curve_per_bucket : gmap string nat) :
  match convert_to_cluster_number bucket_label unique_buckets
          n_curve_per_bucket with
  | Ok c =>
      ∃ k, n_curve_per_bucket !! bucket_label = Some k ∧
           (((k ≤ 5)%nat ∧ c = -1) ∨
            ((5 < k)%nat ∧
             ∃ i, c = Z.of_nat i ∧ unique_buckets !! i = Some bucket_label ∧
                  ∀ j, (j < i)%nat → unique_buckets !! j ≠ Some bucket_label))
  | Raise KeyError => n_curve_per_bucket !! bucket_label = None
  | Raise ValueError =>
      ∃ k, n_curve_per_bucket !! bucket_label = Some k ∧ (5 < k)%nat ∧
           bucket_label ∉ unique_buckets
  | Raise _ => False
  end.
Proof.
  unfold convert_to_cluster_number.
  destruct (n_curve_per_bucket !! bucket_label) as [k|]; [|done].
  destruct (k <=? 5)%nat eqn:Hk.
  - apply Nat.leb_le in Hk. exists k. split; [done|]. by left.
  - apply Nat.leb_gt in Hk.
    destruct (index bucket_label unique_buckets) as [i|] eqn:Hi.
    + apply index_lookup in Hi as [Hi Hfirst].
      exists k. split; [done|]. right. split; [done|]. by exists i.
    + apply index_None in Hi. by exists k.
Qed.

(** X9. The count printed as "Non-outlier cluster number" is the number
    of distinct bucket keys whose population exceeds 5: distinct
    surviving buckets never share a cluster id, and no other bucket gets
    an id different from -1. *)
Theorem non_outlier_clusters_are_surviving_buckets (buckets : list string) :
  ∃ labels,
    cluster_labels buckets = Ok labels ∧
    non_outlier_cluster_number labels = length (surviving buckets).
Proof.
  exists (label_of buckets <$> buckets). split; [apply cluster_labels_ok|].
  unfold non_outlier_cluster_number, n_distinct, non_noise.
  set (f := λ b : string,
              Z.of_nat (default 0%nat (index b (unique buckets)))).
  rewrite <- (length_fmap f (surviving buckets)).
  apply Permutation_length, NoDup_Permutation.
  - apply NoDup_remove_dups.
  - apply NoDup_fmap_2_strong.
    + intros x y Hx Hy Hxy.
      apply list_elem_of_filter in Hx as [_ Hx].
      apply list_elem_of_filter in Hy as [_ Hy].
      destruct (index_is_Some _ _ Hx) as [i Hi].
      destruct (index_is_Some _ _ Hy) as [j Hj].
      unfold f in Hxy. rewrite Hi, Hj in Hxy. simpl in Hxy.
      apply Nat2Z.inj in Hxy as ->. by eapply index_inj.
    + apply NoDup_filter, unique_NoDup.
  - intros c. rewrite elem_of_remove_dups, list_elem_of_filter.
    rewrite !list_elem_of_fmap. unfold surviving. split.
    + intros [Hc (b & -> & Hb)]. exists b.
      unfold label_of in *.
      destruct (population b buckets <=? 5)%nat eqn:Hp; [done|].
      apply Nat.leb_gt in Hp. split; [done|].
      apply list_elem_of_filter. split; [done|]. by apply unique_elem_of.
    + intros (b & -> & [Hp Hb]%list_elem_of_filter). split.
      * unfold f. lia.
      * exists b. split; [|by apply unique_elem_of].
        unfold label_of. by rewrite (proj2 (Nat.leb_gt _ _) Hp).
Qed.

(** ** The pipeline as a whole *)

Section pipeline_extras.
Context `{E : Externals}.

Lemma bucket_keys_length (record_ids : list string)
    (data : list (list string)) :
  length (bucket_keys record_ids data)
  = (length record_ids `min` length data)%nat.
Proof.
  unfold bucket_keys, compute_min_hash_lsh_over_data. simpl.
  by rewrite !length_fmap, length_zip_with.
Qed.

Lemma foldl_app_concat {A} (first : list A) (others : list (list A)) :
  foldl app first others = first ++ concat others.
Proof.
  revert first. induction others as [|x others IH]; intros first; simpl.
  - by rewrite app_nil_r.
  - by rewrite IH, app_assoc.
Qed.

Lemma simplify_coordinator_length (curve : list Point) (epsilon : Q) :
  (length (simplify_coordinator curve epsilon) ≤ length curve)%nat.
Proof.
  destruct curve as [|a [|x rest]]; [done..|].
  unfold simplify_coordinator.
  set (m := removelast (x :: rest)).
  pose proof (kept_between_length (length m) epsilon a m
                (List.last (x :: rest) a)) as Hk.
  assert (length m = length rest) as Hm.
  { pose proof (app_removelast_last a (l := x :: rest) ltac:(done)) as Hl.
    apply (f_equal length) in Hl. rewrite length_app in Hl. fold m in Hl.
    simpl in Hl. lia. }
  cbn [length]. rewrite length_app. cbn [length]. lia.
Qed.

Lemma simplified_pool_length (trajectories : list (list Point)) (e : Q) :
  (length (concat ((λ curve, simplify_coordinator curve e) <$> trajectories))
   ≤ length (concat trajectories))%nat.
Proof.
  induction trajectories as [|t ts IH]; [done|].
  rewrite fmap_cons. cbn [concat]. rewrite !length_app.
  pose proof (simplify_coordinator_length t e). lia.
Qed.

(** ['k-means'] detection on a pool of fewer than nine points. *)
Lemma detect_kmeans_pool (ambient : RandomState) (pool : list Point) :
  if decide (9 ≤ length pool)%nat
  then ∃ kmeans, detect_entrance_ways ambient pool "k-means"
                 = Ok (cluster_centers_ kmeans, KMeansClassifier kmeans)
  else detect_entrance_ways ambient pool "k-means" = Raise ValueError.
Proof.
  pose proof (kmeans_clustering_cases ambient pool 9 ltac:(lia)) as Hk.
  unfold detect_entrance_ways. simpl.
  destruct (decide _) as [Hle|Hgt].
  - destruct Hk as (km & Hfit & _). rewrite Hfit. by exists km.
  - by rewrite Hk.
Qed.

(** A column of labels that takes one value only. *)
Lemma n_distinct_constant (labels : list Z) (c : Z) :
  Forall (λ x, x = c) labels → (n_distinct labels ≤ 1)%nat.
Proof.
  intros Hall. unfold n_distinct.
  assert (Forall (λ x, x = c) (remove_dups labels)) as Hc.
  { apply Forall_forall. intros x Hx. rewrite elem_of_remove_dups in Hx.
    rewrite Forall_forall in Hall. by apply Hall. }
  pose proof (NoDup_remove_dups labels) as Hnd.
  destruct (remove_dups labels) as [|x [|y l]]; simpl; [lia..|].
  exfalso. apply NoDup_cons in Hnd as [Hx _]. apply Hx.
  apply Forall_cons in Hc as [-> Hc]. apply Forall_cons in Hc as [-> _].
  constructor.
Qed.

Lemma population_le (b : string) (l : list string) :
  (population b l ≤ length l)%nat.
Proof. apply length_filter. Qed.

Lemma population_full (b : string) (l : list string) :
  population b l = length l → Forall (λ c, c = b) l.
Proof.
  unfold population. induction l as [|x l IH]; [constructor|].
  rewrite filter_cons. destruct (decide (x = b)) as [->|Hne]; simpl.
  - intros [= Hl]. constructor; [done|]. by apply IH.
  - pose proof (length_filter (λ c, c = b) l). lia.
Qed.

(** Six records or fewer cannot give two different cluster ids. *)
Lemma few_records_one_label (buckets : list string) :
  (length buckets ≤ 6)%nat →
  (n_distinct (label_of buckets <$> buckets) ≤ 1)%nat.
Proof.
  intros Hlen.
  destruct (decide (Exists (λ b, (5 < population b buckets)%nat) buckets))
    as [Hbig|Hnone].
  - apply Exists_exists in Hbig as (b & Hb & Hpop).
    pose proof (population_le b buckets).
    assert (Forall (λ c, c = b) buckets) as Hall
      by (apply population_full; lia).
    apply (n_distinct_constant _ (label_of buckets b)).
    apply Forall_fmap. eapply Forall_impl; [exact Hall|]. by intros ? ->.
  - apply (n_distinct_constant _ (-1)).
    apply Forall_fmap, Forall_forall. intros b Hb. simpl.
    unfold label_of. destruct (population b buckets <=? 5)%nat eqn:Hp; [done|].
    apply Nat.leb_gt in Hp. exfalso. apply Hnone, Exists_exists. by exists b.
Qed.

(** What has happened when [main] returns. *)
Lemma main_Ok_inv (ambient : RandomState) (inputs : Inputs)
    (max_flights : nat) (plot : Plot) :
  main ambient inputs max_flights = Ok plot →
  let trajectories :=
    entrance_trajectories (entrance_to_airport inputs) (flight_ids inputs)
                          max_flights in
  let pool := concat ((λ curve, simplify_coordinator curve 0.0001%Q)
                        <$> trajectories) in
  ∃ kmeans groups labels score,
    trajectories ≠ [] ∧
    detect_entrance_ways ambient pool "k-means"
      = Ok (cluster_centers_ kmeans, KMeansClassifier kmeans) ∧
    length (cluster_centers_ kmeans) = 9%nat ∧
    entrance_groups ambient "k-means" (KMeansClassifier kmeans) trajectories
      = Ok groups ∧
    length groups = length (idx inputs) ∧
    cluster_labels (bucket_keys (idx inputs) (group_labels groups))
      = Ok labels ∧
    compute_silhouette_score (build_matrix_distances (trajectory inputs))
      labels = Ok score ∧
    plot = {| plot_flight_ids := idx inputs; clusters := labels;
              group_clusters := cluster_centers_ kmeans;
              silhouette_val := score |}.
Proof.
  intros Hmain trajectories pool. unfold main in Hmain.
  fold trajectories in Hmain. unfold pool.
  clearbody trajectories. clear pool.
  destruct trajectories as [|t ts]; [discriminate Hmain|].
  cbn [fmap list_fmap] in Hmain. cbn [mbind result_bind] in Hmain.
  rewrite foldl_app_concat in Hmain.
  rewrite fmap_cons. cbn [concat].
  set (pool' := simplify_coordinator t 0.0001%Q ++ concat _) in *.
  destruct (detect_entrance_ways ambient pool' "k-means")
    as [[centers classifier]|] eqn:Hdetect;
    cbn [mbind result_bind] in Hmain; [|done].
  destruct (detect_entrance_ways_kmeans _ _ _ _ Hdetect)
    as (kmeans & -> & <- & Hnine).
  destruct (entrance_groups ambient "k-means" (KMeansClassifier kmeans)
              (t :: ts))
    as [groups|] eqn:Hgroups; cbn [mbind result_bind] in Hmain; [|done].
  destruct (length groups =? length (idx inputs))%nat eqn:Hlen;
    cbn [negb] in Hmain; [|done].
  apply Nat.eqb_eq in Hlen.
  destruct (cluster_labels _) as [labels|] eqn:Hlabels;
    cbn [mbind result_bind] in Hmain; [|done].
  destruct (compute_silhouette_score _ labels) as [score|] eqn:Hscore;
    cbn [mbind result_bind] in Hmain; [|done].
  injection Hmain as <-.
  by exists kmeans, groups, labels, score.
Qed.

(** A run that returns had at least seven records to cluster. *)
Lemma main_Ok_records (ambient : RandomState) (inputs : Inputs)
    (max_flights : nat) (plot : Plot) :
  main ambient inputs max_flights = Ok plot →
  length (clusters plot) = length (idx inputs) ∧
  (1 < n_distinct (clusters plot) < length (idx inputs))%nat ∧
  (7 ≤ length (idx inputs))%nat.
Proof.
  intros (kmeans & groups & labels & score & _ & _ & _ & _ & Hlen & Hlabels
          & Hscore & ->)%main_Ok_inv. simpl.
  set (buckets := bucket_keys (idx inputs) (group_labels groups)) in *.
  rewrite cluster_labels_ok in Hlabels. injection Hlabels as <-.
  assert (length buckets = length (idx inputs)) as Hb.
  { unfold buckets, group_labels.
    rewrite bucket_keys_length, length_fmap. lia. }
  rewrite length_fmap.
  unfold compute_silhouette_score, silhouette_score in Hscore.
  destruct (is_square _ _); cbn [negb] in Hscore; [|done].
  destruct (forallb _ (seq _ _)); cbn [negb] in Hscore; [|done].
  destruct (forallb _ _); cbn [negb] in Hscore; [|done].
  destruct (_ && _) eqn:Hn; cbn [negb] in Hscore; [|done].
  apply andb_true_iff in Hn as [H1%Nat.ltb_lt H2%Nat.ltb_lt].
  rewrite length_fmap in H2.
  split; [done|]. split; [lia|].
  destruct (decide (length buckets ≤ 6)%nat) as [Hfew|]; [|lia].
  pose proof (few_records_one_label buckets Hfew). lia.
Qed.

End pipeline_extras.

(** X10. With no flight to process (an empty id list, or
    [max_flights = 0]) [main] raises [IndexError] at
    [simplified_coords[0]], before any corridor is detected. *)
Theorem main_without_flights_raises_IndexError `{E : Externals}
    (ambient : RandomState) (inputs : Inputs) (max_flights : nat) :
  take max_flights (flight_ids inputs) = [] →
  main ambient inputs max_flights = Raise IndexError.
Proof.
  intros Hnone. unfold main, entrance_trajectories. by rewrite Hnone.
Qed.

Lemma main_without_flights_raises_IndexError_witness :
  main (E := sample_externals) 0 sample_inputs 0 = Raise IndexError.
Proof.
  apply (main_without_flights_raises_IndexError (E := sample_externals)).
  reflexivity.
Defined.

(** X11. When the flights to process have fewer than nine entrance rows
    between them, [main] raises: [IndexError] when there is no flight to
    process, and [ValueError] when there is one, as simplification adds
    no point and the nine corridors cannot be fitted. *)
Theorem main_with_small_pool_raises `{E : Externals}
    (ambient : RandomState) (inputs : Inputs) (max_flights : nat) :
  (length (concat (entrance_trajectories (entrance_to_airport inputs)
                     (flight_ids inputs) max_flights)) < 9)%nat →
  main ambient inputs max_flights
  = Raise (if decide (take max_flights (flight_ids inputs) = [])
           then IndexError else ValueError).
Proof.
  intros Hfew. unfold main.
  destruct (decide _) as [Hnone|Hsome].
  { unfold entrance_trajectories. by rewrite Hnone. }
  assert (entrance_trajectories (entrance_to_airport inputs)
            (flight_ids inputs) max_flights ≠ []) as Hne.
  { unfold entrance_trajectories. by intros ?%fmap_nil_inv. }
  pose proof (simplified_pool_length
                (entrance_trajectories (entrance_to_airport inputs)
                   (flight_ids inputs) max_flights) 0.0001%Q) as Hpool.
  destruct (entrance_trajectories _ _ _) as [|t ts]; [done|].
  cbn [fmap list_fmap]. cbn [mbind result_bind].
  rewrite foldl_app_concat.
  rewrite fmap_cons in Hpool. cbn [concat] in Hpool.
  pose proof (detect_kmeans_pool ambient
    (simplify_coordinator t 0.0001%Q
     ++ concat ((λ curve, simplify_coordinator curve 0.0001%Q) <$> ts)))
    as Hdetect.
  cbn [concat] in Hfew.
  destruct (decide _) as [Hle|_]; [lia|].
  by rewrite Hdetect.
Qed.

Lemma main_with_small_pool_raises_witness :
  main (E := sample_externals) 0 sample_inputs 4 = Raise ValueError ∧
  main (E := sample_externals) 0
    {| flight_ids := []; entrance_to_airport := [];
       idx := []; trajectory := [] |} 4 = Raise IndexError.
Proof.
  split.
  - apply (main_with_small_pool_raises (E := sample_externals)
             0 sample_inputs 4).
    vm_compute. lia.
  - apply (main_with_small_pool_raises (E := sample_externals) 0
             {| flight_ids := []; entrance_to_airport := [];
                idx := []; trajectory := [] |} 4).
    vm_compute. lia.
Defined.

(** X12. [main] raises whenever [flight_df] has six rows or fewer: a
    bucket then either holds every record or is noise, the labeling has a
    single value, and the silhouette evaluation refuses it before the
    plot is made. *)
Theorem main_needs_seven_records `{E : Externals} (ambient : RandomState)
    (inputs : Inputs) (max_flights : nat) :
  (length (idx inputs) ≤ 6)%nat →
  raises (main ambient inputs max_flights) = true.
Proof.
  intros Hfew.
  destruct (main ambient inputs max_flights) as [plot|] eqn:Hmain; [|done].
  apply main_Ok_records in Hmain as (_ & _ & Hseven). lia.
Qed.

Lemma main_needs_seven_records_witness :
  raises (main (E := sample_externals) 0
            {| flight_ids := flight_ids sample_inputs;
               entrance_to_airport := entrance_to_airport sample_inputs;
               idx := ["f1"; "f2"; "f3"; "f4"; "f5"; "f6"];
               trajectory := trajectory sample_inputs |} 6) = true.
Proof.
  apply (main_needs_seven_records (E := sample_externals)). simpl. lia.
Defined.

(** X13. When [main] returns, it hands the renderer the [idx] column as
    flight ids and one cluster id, never below -1, per id; the flights
    processed are as many as the rows of [flight_df]; there are nine
    corridor centres; and the cluster ids take at least two different
    values and fewer values than there are records. *)
Theorem main_result_shape `{E : Externals} (ambient : RandomState)
    (inputs : Inputs) (max_flights : nat) (plot : Plot) :
  main ambient inputs max_flights = Ok plot →
  plot_flight_ids plot = idx inputs ∧
  length (clusters plot) = length (idx inputs) ∧
  length (take max_flights (flight_ids inputs)) = length (idx inputs) ∧
  length (group_clusters plot) = 9%nat ∧
  Forall (λ c, -1 ≤ c) (clusters plot) ∧
  (1 < n_distinct (clusters plot) < length (idx inputs))%nat.
Proof.
  intros Hmain.
  destruct (main_Ok_records _ _ _ _ Hmain) as (Hlen & Hdistinct & _).
  apply main_Ok_inv in Hmain
    as (kmeans & groups & labels & score & _ & _ & Hnine & Hgroups & Hidx
        & Hlabels & _ & ->).
  simpl in *. repeat split; [done| |done| |lia..].
  - apply mapM_result_Forall2, Forall2_length in Hgroups.
    unfold entrance_trajectories in Hgroups.
    rewrite length_fmap in Hgroups. lia.
  - rewrite cluster_labels_ok in Hlabels. injection Hlabels as <-.
    apply Forall_fmap, Forall_forall. intros b _. simpl.
    unfold label_of. destruct (_ <=? 5)%nat; lia.
Qed.

Lemma main_result_shape_witness :
  let plot := {| plot_flight_ids := idx sample_inputs;
                 clusters := [-1; 1; 1; 1; 1; 1; 1];
                 group_clusters :=
                   [(10, 10); (1, 2); (0, 0); (11, 12); (0, 0); (1, 2);
                    (0, 0); (1, 2); (0, 0)]%Q;
                 silhouette_val := 0 # 1708984375 |} in
  plot_flight_ids plot = idx sample_inputs ∧
  length (clusters plot) = length (idx sample_inputs) ∧
  length (take 1000 (flight_ids sample_inputs)) = length (idx sample_inputs) ∧
  length (group_clusters plot) = 9%nat ∧
  Forall (λ c, -1 ≤ c) (clusters plot) ∧
  (1 < n_distinct (clusters plot) < length (idx sample_inputs))%nat.
Proof.
  intros plot.
  apply (main_result_shape (E := sample_externals) 0 sample_inputs 1000 plot).
  vm_compute. reflexivity.
Defined.

(** ** The name of the result file *)

Section file_name_props.
Implicit Types (s w : string) (c sep : Ascii.ascii).

Lemma split_on_nonempty sep s : split_on sep s ≠ [].
Proof.
  destruct s as [|c s]; simpl; [done|].
  destruct (split_on sep s); [done|]. by destruct (Ascii.eqb c sep).
Qed.

Lemma split_on_pieces sep s w : w ∈ split_on sep s → sep ∉ chars w.
Proof.
  revert w. induction s as [|c s IH]; intros w; simpl.
  - intros ->%list_elem_of_singleton. by intros ?%elem_of_nil.
  - destruct (split_on sep s) as [|v vs] eqn:Hs.
    { intros ->%list_elem_of_singleton. by intros ?%elem_of_nil. }
    destruct (Ascii.eqb_spec c sep) as [->|Hne].
    + intros [->|Hw]%elem_of_cons; [by intros ?%elem_of_nil|by apply IH].
    + intros [->|Hw]%elem_of_cons.
      * unfold chars. simpl. intros [->|Hin]%elem_of_cons; [done|].
        revert Hin. apply IH. constructor.
      * apply IH. by constructor.
Qed.

Lemma split_on_whole sep s : sep ∉ chars s → split_on sep s = [s].
Proof.
  induction s as [|c s IH]; [done|]. unfold chars. simpl.
  intros Hnot. rewrite IH by (intros ?; apply Hnot; by constructor).
  destruct (Ascii.eqb_spec c sep) as [->|_]; [|done].
  exfalso. apply Hnot. constructor.
Qed.

(** Splitting distributes over a separator. *)
Lemma split_on_app sep s1 s2 :
  split_on sep (s1 +:+ String sep s2) = split_on sep s1 ++ split_on sep s2.
Proof.
  induction s1 as [|c s1 IH]; simpl.
  - pose proof (split_on_nonempty sep s2).
    destruct (split_on sep s2); [done|]. by rewrite Ascii.eqb_refl.
  - rewrite IH. pose proof (split_on_nonempty sep s1).
    destruct (split_on sep s1); [done|]. simpl.
    by destruct (Ascii.eqb c sep).
Qed.

Lemma last_in {A} (l : list A) (d : A) : l ≠ [] → List.last l d ∈ l.
Proof.
  induction l as [|x [|y l] IH]; [done|constructor|].
  intros _. apply elem_of_cons. right. by apply IH.
Qed.

Lemma replace_from_deletes old k s c :
  c ∈ chars (replace_from old "" k s) → c ∈ chars s.
Proof.
  revert k. induction s as [|x s IH]; intros k; [done|].
  cbn [replace_from]. unfold chars. cbn [String.list_ascii_of_string].
  destruct k as [|k].
  - destruct (String.prefix old (String x s)).
    + intros Hc%IH. by constructor.
    + cbn [String.list_ascii_of_string].
      intros [->|Hc%IH]%elem_of_cons; [constructor|by constructor].
  - intros Hc%IH. by constructor.
Qed.

Lemma replace_csv_suffix s :
  dot ∉ chars s → replace ".csv" "" (s +:+ ".csv") = s.
Proof.
  unfold replace. induction s as [|c s IH]; [done|].
  unfold chars. cbn [String.list_ascii_of_string]. intros Hnot.
  assert (c ≠ dot) as Hc by (intros ->; apply Hnot; constructor).
  change (String c s +:+ ".csv") with (String c (s +:+ ".csv")).
  cbn [replace_from String.prefix].
  destruct (Ascii.ascii_dec _ c) as [Heq|_].
  - exfalso. apply Hc. by rewrite <- Heq.
  - f_equal. apply IH. intros ?. apply Hnot. by constructor.
Qed.

End file_name_props.

(** X14. The file name that [main] derives from the input path never
    contains a ['/']: only the part after the last one is kept. *)
Theorem file_name_has_no_slash (input_path : string) :
  slash ∉ chars (file_name input_path).
Proof.
  unfold file_name, replace. intros Hin%replace_from_deletes.
  revert Hin. apply (split_on_pieces slash input_path).
  apply last_in, split_on_nonempty.
Qed.

(** X15. For a path [dir/stem.csv] whose stem holds neither ['/'] nor
    ['.'], the file name is the stem: the directories and the extension
    are stripped. *)
Theorem file_name_of_csv_path (dir stem : string) :
  slash ∉ chars stem → dot ∉ chars stem →
  file_name (dir +:+ "/" +:+ stem +:+ ".csv") = stem.
Proof.
  intros Hslash Hdot. unfold file_name.
  change (dir +:+ "/" +:+ stem +:+ ".csv")
    with (dir +:+ String slash (stem +:+ ".csv")).
  rewrite split_on_app.
  assert (slash ∉ chars (stem +:+ ".csv")) as Hrest.
  { clear Hdot. induction stem as [|c stem IH].
    - vm_compute. intros H.
      repeat (apply elem_of_cons in H as [H|H]; [discriminate H|]).
      by apply elem_of_nil in H.
    - unfold chars in *. cbn [String.append String.list_ascii_of_string] in *.
      intros [Heq|Hin]%elem_of_cons; [apply Hslash; rewrite Heq; constructor|].
      revert Hin. apply IH. intros ?. apply Hslash. by constructor. }
  rewrite (split_on_whole slash (stem +:+ ".csv")) by done.
  rewrite last_last. by apply replace_csv_suffix.
Qed.

Lemma file_name_of_csv_path_witness :
  file_name ("/Users/tanthm/jvn_data/NTU" +:+ "/"
             +:+ "tracks_2015_06_01-001" +:+ ".csv")
  = "tracks_2015_06_01-001".
Proof.
  apply (file_name_of_csv_path "/Users/tanthm/jvn_data/NTU"
           "tracks_2015_06_01-001").
  - apply (bool_decide_unpack _). vm_compute. exact I.
  - apply (bool_decide_unpack _). vm_compute. exact I.
Defined.

(** ** Cluster ids and the spelling of the keys *)

Section key_renaming.
Variable f : string → string.
Variable known : string → Prop.
Hypothesis f_inj : ∀ x y, known x → known y → f x = f y → x = y.

Lemma population_rename (b : string) (l : list string) :
  known b → Forall known l →
  population (f b) (f <$> l) = population b l.
Proof.
  intros Hb. unfold population. induction 1 as [|x l Hx _ IH]; [done|].
  rewrite fmap_cons, !filter_cons.
  destruct (decide (x = b)) as [->|Hne].
  - rewrite decide_True by done. simpl. by rewrite IH.
  - rewrite decide_False by (intros ?%f_inj; done). done.
Qed.

Lemma filter_rename (b : string) (l : list string) :
  known b → Forall known l →
  filter (λ c, c ≠ f b) (f <$> l) = f <$> filter (λ c, c ≠ b) l.
Proof.
  intros Hb. induction 1 as [|x l Hx _ IH]; [done|].
  rewrite fmap_cons, !filter_cons.
  destruct (decide (x ≠ b)) as [Hne|Heq].
  - rewrite decide_True by (intros ?%f_inj; done). by rewrite fmap_cons, IH.
  - rewrite decide_False; [done|]. intros Hne. apply Heq. intros ->. done.
Qed.

Lemma unique_known (l : list string) : Forall known l → Forall known (unique l).
Proof.
  rewrite !Forall_forall. intros Hl x Hx. by apply Hl, unique_elem_of.
Qed.

Lemma unique_rename (l : list string) :
  Forall known l → unique (f <$> l) = f <$> unique l.
Proof.
  induction 1 as [|x l Hx Hl IH]; [done|].
  rewrite fmap_cons. simpl. rewrite IH, filter_rename; [done..|].
  by apply unique_known.
Qed.

Lemma index_rename (b : string) (l : list string) :
  known b → Forall known l → index (f b) (f <$> l) = index b l.
Proof.
  intros Hb. induction 1 as [|x l Hx _ IH]; [done|].
  rewrite fmap_cons. simpl. rewrite IH.
  destruct (decide (b = x)) as [->|Hne].
  - by rewrite decide_True.
  - rewrite decide_False by (intros ?%f_inj; done). done.
Qed.

Lemma label_of_rename (b : string) (l : list string) :
  known b → Forall known l → label_of (f <$> l) (f b) = label_of l b.
Proof.
  intros Hb Hl. unfold label_of.
  rewrite population_rename, unique_rename by done.
  rewrite index_rename; [done|done|by apply unique_known].
Qed.

End key_renaming.

(** Renaming the keys of a column by a map that is one-to-one on them. *)
Lemma cluster_labels_rename (f : string → string) (buckets : list string) :
  (∀ x y, x ∈ buckets → y ∈ buckets → f x = f y → x = y) →
  cluster_labels (f <$> buckets) = cluster_labels buckets.
Proof.
  intros Hinj. rewrite !cluster_labels_ok. f_equal.
  rewrite <- list_fmap_compose. apply list_fmap_ext.
  intros i b Hb. simpl.
  apply (label_of_rename f (λ x, x ∈ buckets) Hinj).
  - by eapply list_elem_of_lookup_2.
  - by apply Forall_forall.
Qed.

(** X16. The cluster ids depend on which records share a bucket key and
    on the order of the records, not on how the keys are spelled:
    renaming the keys by any one-to-one map leaves every cluster id as it
    is. *)
Theorem cluster_labels_ignore_key_spelling (f : string → string)
    (buckets : list string) :
  (∀ x y, f x = f y → x = y) →
  cluster_labels (f <$> buckets) = cluster_labels buckets.
Proof.
  intros Hinj. apply cluster_labels_rename. intros x y _ _. apply Hinj.
Qed.

Lemma cluster_labels_ignore_key_spelling_witness :
  cluster_labels ((λ b, "key-" +:+ b)
                    <$> ["a"; "b"; "b"; "b"; "b"; "b"; "b"])
  = cluster_labels ["a"; "b"; "b"; "b"; "b"; "b"; "b"].
Proof.
  apply (cluster_labels_ignore_key_spelling (λ b, "key-" +:+ b)).
  intros x y Heq. by injection Heq.
Defined.

(** ** More on the density-based branch *)

Section dbscan_success.
Context `{E : Externals}.

(** Labels that all lie in [0 .. num-1], [num] of them distinct, take
    every value below [num]. *)
Lemma labels_fill_range (labels : list Z) (n : nat) :
  Forall (λ l, 0 ≤ l < Z.of_nat (n_distinct labels)) labels →
  (n < n_distinct labels)%nat → Z.of_nat n ∈ labels.
Proof.
  intros Hall Hn. unfold n_distinct in *.
  set (num := length (remove_dups labels)) in *.
  assert (remove_dups labels ⊆+ Z.of_nat <$> seq 0 num) as Hsub.
  { apply NoDup_submseteq; [apply NoDup_remove_dups|].
    intros l Hl. rewrite elem_of_remove_dups in Hl.
    rewrite Forall_forall in Hall. specialize (Hall l Hl).
    apply list_elem_of_fmap. exists (Z.to_nat l). split; [lia|].
    apply elem_of_seq. lia. }
  apply submseteq_length_Permutation in Hsub.
  - rewrite <- elem_of_remove_dups, Hsub. apply list_elem_of_fmap.
    exists n. split; [done|]. apply elem_of_seq. lia.
  - rewrite length_fmap, length_seq. done.
Qed.

Lemma mapM_result_is_Ok {A B} (f : A → result B) (l : list A) :
  Forall (λ x, raises (f x) = false) l → raises (mapM f l) = false.
Proof.
  induction 1 as [|x l Hx _ IH]; simpl; [done|].
  destruct (f x); [|done]. simpl. by destruct (mapM f l).
Qed.

End dbscan_success.

(** X17. If DBSCAN's fit returns and labels every point within
    [0 .. num_clusters - 1] (no noise), [dbscan_clustering] returns: each
    of the clusters it builds has a point, so each has a centermost
    point. *)
Theorem dbscan_clustering_returns_without_noise `{E : Externals}
    (coords : list Point) (min_sample : nat) (max_distance : Q)
    (epsilon : option Q) (labels : list Z) :
  dbscan_fit (if negb (truthy epsilon) then (max_distance / KM_PER_RADIAN)%Q
              else default 0%Q epsilon)
             min_sample ((λ p, (radians p.1, radians p.2)) <$> coords)
    = Ok labels →
  Forall (λ l, 0 ≤ l < Z.of_nat (n_distinct labels)) labels →
  raises (dbscan_clustering coords min_sample max_distance epsilon) = false.
Proof.
  intros Hfit Hall. rewrite dbscan_clustering_unfold, Hfit. simpl.
  assert (raises (mapM get_centermost_point
            ((λ n, rows_labelled coords labels (Z.of_nat n))
               <$> seq 0 (n_distinct labels))) = false) as Hok.
  { apply mapM_result_is_Ok, Forall_fmap, Forall_forall.
    intros n Hn%elem_of_seq. simpl.
    assert (Z.of_nat n ∈ labels) as Hin
      by (apply labels_fill_range; [done|lia]).
    apply list_elem_of_lookup in Hin as [i Hi].
    apply dbscan_fit_length in Hfit. rewrite length_fmap in Hfit.
    assert (i < length coords)%nat as Hlt.
    { apply lookup_lt_Some in Hi. rewrite Hfit in Hi. exact Hi. }
    destruct (lookup_lt_is_Some_2 coords i Hlt) as [p Hp].
    assert (p ∈ rows_labelled coords labels (Z.of_nat n)) as Hrow
      by (apply rows_labelled_elem; by exists i).
    unfold get_centermost_point.
    destruct (min_by _ _) as [q|] eqn:Hq; [done|].
    apply min_by_None in Hq. rewrite Hq in Hrow. by apply elem_of_nil in Hrow. }
  by destruct (mapM _ _).
Qed.

Lemma dbscan_clustering_returns_without_noise_witness :
  raises (dbscan_clustering (E := isolating_externals)
            [(1.35, 103.99); (1.36, 104.02)]%Q 1 30.0%Q None) = false.
Proof.
  apply (dbscan_clustering_returns_without_noise (E := isolating_externals)
           [(1.35, 103.99); (1.36, 104.02)]%Q 1 30.0%Q None [0; 1]).
  - reflexivity.
  - assert (n_distinct [0; 1] = 2%nat) as -> by reflexivity.
    repeat constructor; lia.
Defined.

(** X18. In the ['dbscan'] branch the tokenizer fits DBSCAN afresh on
    each trajectory, with the radius and [min_samples] of the classifier:
    the corridors the classifier found on the pool play no part, and on
    success every trajectory gets one label per point. *)
Theorem dbscan_tokens_ignore_detected_corridors `{E : Externals}
    (ambient : RandomState) (db db' : DBSCAN)
    (trajectories : list (list Point)) :
  eps db = eps db' → min_samples db = min_samples db' →
  entrance_groups ambient "dbscan" (DBSCANClassifier db) trajectories
    = entrance_groups ambient "dbscan" (DBSCANClassifier db') trajectories ∧
  match entrance_groups ambient "dbscan" (DBSCANClassifier db)
          trajectories with
  | Ok groups => Forall2 (λ traj g, length g = length traj
                                    ∧ dbscan_fit (eps db) (min_samples db) traj
                                      = Ok g)
                         trajectories groups
  | Raise _ => True
  end.
Proof.
  intros Heps Hmin. unfold entrance_groups. simpl.
  rewrite <- Heps, <- Hmin. split; [done|].
  destruct (mapM _ trajectories) as [groups|] eqn:Hgroups; [|done].
  apply mapM_result_Forall2 in Hgroups.
  eapply Forall2_impl; [exact Hgroups|]. simpl.
  intros traj g Hfit. unfold DBSCAN_fit in Hfit.
  destruct (dbscan_fit _ _ traj) as [labels|] eqn:Hlabels; [|done].
  simpl in Hfit. injection Hfit as <-.
  split; [by eapply dbscan_fit_length|done].
Qed.

Lemma dbscan_tokens_ignore_detected_corridors_witness :
  let db := {| eps := 0.005; min_samples := 1; labels_ := [0; 1; 2] |} in
  let db' := {| eps := 0.005; min_samples := 1; labels_ := [0] |} in
  let trajectories := [[(1.35, 103.99); (1.36, 104.02)]%Q; []] in
  entrance_groups (E := isolating_externals) 0 "dbscan"
    (DBSCANClassifier db) trajectories
  = entrance_groups (E := isolating_externals) 0 "dbscan"
      (DBSCANClassifier db') trajectories ∧
  match entrance_groups (E := isolating_externals) 0 "dbscan"
          (DBSCANClassifier db) trajectories with
  | Ok groups =>
      Forall2 (λ traj g,
                 length g = length traj
                 ∧ dbscan_fit (Externals := isolating_externals)
                     (eps db) (min_samples db) traj = Ok g)
              trajectories groups
  | Raise _ => True
  end.
Proof.
  intros db db' trajectories.
  apply (dbscan_tokens_ignore_detected_corridors (E := isolating_externals)
           0 db db' trajectories); reflexivity.
Defined.

(** ** Runs of the pipeline *)

Section determinism.
Context `{E : Externals}.




End determinism.

(** An unseeded fit does follow the process-wide generator: the seed that
    [kmeans_clustering] passes is what the determinism rests on. *)
Remark KMeans_fit_unseeded_varies :
  KMeans_fit (E := sample_externals) 0 2 None [(0, 0); (1, 0); (0, 1)]%Q
  ≠ KMeans_fit (E := sample_externals) 1 2 None [(0, 0); (1, 0); (0, 1)]%Q.
Proof. vm_compute. discriminate. Qed.


Section joined_keys.
Implicit Types (l : list string) (w : string).





End joined_keys.

Section candidate_keys.
Context `{E : Externals}.


(** [main] is the run that lists candidate sets as [elements] does. *)
Lemma main_run_elements (ambient : RandomState) (inputs : Inputs)
    (max_flights : nat) :
  main_run elements ambient inputs max_flights
  = main ambient inputs max_flights.
Proof. reflexivity. Qed.





End candidate_keys.

Section runs_agree.
Context `{E : Externals}.



End runs_agree.



(** The condition on the ids is needed when the listing orders differ.
    With ids that hold a ['_'], two candidate sets can have one bucket
    key in one order and two in another: listed alphabetically, the
    records below fall in one bucket of six, and listed the other way
    round, in two buckets of three, which are noise. *)
Remark listing_order_shows_with_underscores :
  let record_ids := ["a_b"; "c"; "d"; "a"; "b"; "c_d"] in
  let data := [["G1"]; ["G1"]; ["G1"]; ["G2"]; ["G2"]; ["G2"]] in
  cluster_labels (bucket_keys_in (E := sample_externals) alphabetical
                    record_ids data) = Ok [0; 0; 0; 0; 0; 0] ∧
  cluster_labels (bucket_keys_in (E := sample_externals)
                    (reverse ∘ alphabetical) record_ids data)
    = Ok [-1; -1; -1; -1; -1; -1].
Proof. split; vm_compute; reflexivity. Qed.
